(** * Seller request validators (apps/backend/src/api/vendor/sellers/validators.ts)

    The source file declares three request-body schemas with the zod
    combinator library: [VendorCreateSeller], [VendorUpdateSeller] and
    [VendorUpdateReview].  This development embeds

    - the JavaScript values such a schema is run on (JSON data plus
      [undefined]), with strings as sequences of UTF-16 code units so that
      [.length] and [.trim()] mean what they mean in the source;
    - the part of zod the three schemas use (string, enum, optional,
      nullable, preprocess, object with strip/strict unknown-key policy,
      superRefine, safeParse), following zod 3 (3.23 and later): every
      parser returns a status [OK]/[DIRTY]/[INVALID] and appends issues to
      the shared issue list; exceptions raised by user callbacks are not
      caught.  The source does not say which zod release it runs on, and
      the 3.22 releases differ in how [preprocess] behaves once an issue
      has been raised; [parse_3_22] is the parser of that line, and the
      statements that depend on the difference are made for both lines;
    - the three schemas and their two callbacks, written combinator by
      combinator as in the source.

    Numbers carry an integer payload: the schemas only ever look at the
    type of a number, never at its value. *)

From Stdlib Require Import List String Ascii NArith ZArith Bool Arith Lia.
Set Warnings "-register-all".
Import ListNotations.
Local Open Scope string_scope.
Local Open Scope list_scope.

(* ================================================================== *)
(** ** JavaScript values *)

(** A JavaScript string: its UTF-16 code units; [.length] is [List.length]. *)
Definition jsstring := list N.

(** Object keys are only ever compared for equality. *)
Definition key := string.

Inductive value : Type :=
| VUndefined
| VNull
| VBool (b : bool)
| VNum (n : Z)
| VStr (s : jsstring)
| VArr (items : list value)
| VObj (fields : list (key * value)).

Definition obj := list (key * value).

(** A string literal of the source (ASCII) as a JavaScript string. *)
Definition lit (s : string) : jsstring :=
  map N_of_ascii (list_ascii_of_string s).

(** [data[k]]: the first binding of [k], [undefined] when there is none. *)
Fixpoint get (o : obj) (k : key) : value :=
  match o with
  | [] => VUndefined
  | (k', v) :: rest => if String.eqb k k' then v else get rest k
  end.

(** [k in data] *)
Fixpoint has_key (o : obj) (k : key) : bool :=
  match o with
  | [] => false
  | (k', _) :: rest => if String.eqb k k' then true else has_key rest k
  end.

(** [for (const key in data)] *)
Definition keys (o : obj) : list key := map fst o.

Definition mem_key (k : key) (ks : list key) : bool :=
  existsb (String.eqb k) ks.

Definition jsstring_eqb (a b : jsstring) : bool :=
  if list_eq_dec N.eq_dec a b then true else false.

(** [!v] for the values a JSON body can hold. *)
Definition falsy (v : value) : bool :=
  match v with
  | VUndefined | VNull => true
  | VBool b => negb b
  | VNum n => Z.eqb n 0
  | VStr s => match s with [] => true | _ => false end
  | VArr _ | VObj _ => false
  end.

(** Exceptions a call can raise. *)
Inductive exn : Type :=
| TypeError
| Error (msg : string).

(* ------------------------------------------------------------------ *)
(** *** String.prototype.trim *)

(** WhiteSpace and LineTerminator code points of ECMAScript: TAB, LF, VT,
    FF, CR, SP, NBSP, U+1680, U+2000..U+200A, U+2028, U+2029, U+202F,
    U+205F, U+3000, U+FEFF. *)
Definition is_ws (c : N) : bool :=
  ((9 <=? c) && (c <=? 13) || (c =? 32) || (c =? 160) || (c =? 5760)
   || (8192 <=? c) && (c <=? 8202) || (c =? 8232) || (c =? 8233)
   || (c =? 8239) || (c =? 8287) || (c =? 12288) || (c =? 65279))%N.

Fixpoint trimStart (s : jsstring) : jsstring :=
  match s with
  | [] => []
  | c :: rest => if is_ws c then trimStart rest else s
  end.

Fixpoint trimEnd (s : jsstring) : jsstring :=
  match s with
  | [] => []
  | c :: rest =>
      match trimEnd rest with
      | [] => if is_ws c then [] else [c]
      | rest' => c :: rest'
      end
  end.

Definition trim (s : jsstring) : jsstring := trimEnd (trimStart s).

(* ------------------------------------------------------------------ *)
(** *** zod's e-mail test

    zod 3 tests a string against one anchored, case-insensitive regular
    expression.  Read left to right it is: two lookaheads (the string does
    not start with a dot; it has no two dots in a row); a local part, any
    number of characters of the class [A-Z 0-9 _ ' + - .] followed by one
    of the class [A-Z 0-9 _ + -]; an at sign; one or more labels, each a
    letter or digit followed by letters, digits and hyphens and closed by
    a dot; and a last run of two or more letters.  No class contains the
    at sign, a dot-free label cannot contain a dot, and no class contains
    a line terminator, so the match is decided by cutting the string at
    its first at sign and the domain at its dots. *)
Module Email.

Definition in_range (lo hi c : N) : bool := ((lo <=? c) && (c <=? hi))%N.
Definition is_alpha (c : N) : bool := in_range 65 90 c || in_range 97 122 c.
Definition is_digit (c : N) : bool := in_range 48 57 c.
Definition is_alnum (c : N) : bool := is_alpha c || is_digit c.

(** local part, every character *)
Definition local_char (c : N) : bool :=
  (is_alnum c || (c =? 95) || (c =? 39) || (c =? 43) || (c =? 45) || (c =? 46))%N.
(** local part, last character *)
Definition local_last (c : N) : bool :=
  (is_alnum c || (c =? 95) || (c =? 43) || (c =? 45))%N.
(** label, after its first character *)
Definition label_char (c : N) : bool := (is_alnum c || (c =? 45))%N.

(** The text before the first [sep] and the text after it. *)
Fixpoint cut (sep : N) (s : jsstring) : option (jsstring * jsstring) :=
  match s with
  | [] => None
  | c :: rest =>
      if (c =? sep)%N then Some ([], rest)
      else match cut sep rest with
           | Some (a, b) => Some (c :: a, b)
           | None => None
           end
  end.

(** The pieces between the occurrences of [sep]. *)
Fixpoint pieces (sep : N) (s : jsstring) : list jsstring :=
  match s with
  | [] => [[]]
  | c :: rest =>
      if (c =? sep)%N then [] :: pieces sep rest
      else match pieces sep rest with
           | p :: ps => (c :: p) :: ps
           | [] => [[c]]
           end
  end.

Fixpoint has_dotdot (s : jsstring) : bool :=
  match s with
  | a :: ((b :: _) as rest) => ((a =? 46) && (b =? 46))%N || has_dotdot rest
  | _ => false
  end.

(** one label, without its closing dot *)
Definition is_label (p : jsstring) : bool :=
  match p with
  | [] => false
  | c :: rest => is_alnum c && forallb label_char rest
  end.

(** labels then the final run of letters, on the pieces of the domain *)
Fixpoint is_domain (seen_label : bool) (ps : list jsstring) : bool :=
  match ps with
  | [] => false
  | [tld] => seen_label && forallb is_alpha tld && (2 <=? List.length tld)%nat
  | p :: rest => is_label p && is_domain true rest
  end.

Definition is_local (l : jsstring) : bool :=
  forallb local_char l &&
  match rev l with
  | [] => false
  | c :: _ => local_last c
  end.

Definition test (s : jsstring) : bool :=
  match s with
  | [] => false
  | c0 :: _ =>
      negb (c0 =? 46)%N && negb (has_dotdot s) &&
      match cut 64 s with
      | Some (l, d) => is_local l && is_domain false (pieces 46 d)
      | None => false
      end
  end.

End Email.

(* ================================================================== *)
(** ** zod: issues, results, schemas *)

(** [ZodParsedType] for the values above. *)
Inductive parsed_type : Type :=
| TUndefined | TNull | TBoolean | TNumber | TString | TArray | TObject.

Definition getParsedType (v : value) : parsed_type :=
  match v with
  | VUndefined => TUndefined
  | VNull => TNull
  | VBool _ => TBoolean
  | VNum _ => TNumber
  | VStr _ => TString
  | VArr _ => TArray
  | VObj _ => TObject
  end.

(** What an [invalid_type] issue says was expected: a type, or for an enum
    the list of its values. *)
Inductive expected : Type :=
| ExpType (t : parsed_type)
| ExpOneOf (options : list jsstring).

(** The data of a zod issue, by [ZodIssueCode].  The text of a built-in
    issue comes from zod's error map and is not modelled; a [custom] issue
    carries the message its callback gave. *)
Inductive issue_data : Type :=
| invalid_type (exp : expected) (received : parsed_type)
| invalid_enum_value (options : list jsstring) (received : jsstring)
| unrecognized_keys (ks : list key)
| invalid_string_email
| too_small (minimum : nat)
| too_big (maximum : nat)
| custom (message : string).

Record issue : Type := Issue { path : list key; data : issue_data }.

(** The issue kinds of the specification's error taxonomy. *)
Inductive issue_kind : Type :=
| MissingRequiredField | UnexpectedNull | TypeMismatch | LengthOutOfBounds
| FormatInvalid | UnrecognizedField | ConditionalRequirementUnmet.

Definition kind_of (d : issue_data) : issue_kind :=
  match d with
  | invalid_type _ TUndefined => MissingRequiredField
  | invalid_type _ TNull => UnexpectedNull
  | invalid_type _ _ => TypeMismatch
  | invalid_enum_value _ _ => TypeMismatch
  | unrecognized_keys _ => UnrecognizedField
  | invalid_string_email => FormatInvalid
  | too_small _ | too_big _ => LengthOutOfBounds
  | custom _ => ConditionalRequirementUnmet
  end.

(** A computation that may raise, and otherwise returns a value together
    with the issues it added to the parse context, in order. *)
Inductive js (A : Type) : Type :=
| Throw (e : exn)
| Ret (a : A) (added : list issue).
Arguments Throw {A} e.
Arguments Ret {A} a added.

Definition bind {A B : Type} (m : js A) (f : A -> js B) : js B :=
  match m with
  | Throw e => Throw e
  | Ret a is1 =>
      match f a with
      | Throw e => Throw e
      | Ret b is2 => Ret b (is1 ++ is2)
      end
  end.

Notation "x <- m ;; k" := (bind m (fun x => k))
  (at level 61, m at next level, right associativity).

(** [ParseReturnType]: [{status: "valid", value}], [{status: "dirty",
    value}] or [INVALID] (status "aborted"). *)
Inductive parse_return : Type :=
| OK (v : value)
| DIRTY (v : value)
| INVALID.

Inductive string_check : Type :=
| CMin (n : nat)
| CMax (n : nat)
| CEmail.

Inductive unknown_keys : Type := Strip | Strict.

Inductive schema : Type :=
| ZString (checks : list string_check)
| ZEnum (values : list jsstring)
| ZOptional (inner : schema)
| ZNullable (inner : schema)
| ZPreprocess (transform : value -> exn + value) (inner : schema)
| ZObject (fields : shape) (policy : unknown_keys)
| ZSuperRefine (inner : schema) (refinement : value -> list issue)
with shape : Type :=
| SNil
| SCons (k : key) (s : schema) (rest : shape).

Scheme schema_shape_ind := Induction for schema Sort Prop
  with shape_schema_ind := Induction for shape Sort Prop.
Combined Scheme schema_mutind from schema_shape_ind, shape_schema_ind.

Fixpoint shape_keys (sh : shape) : list key :=
  match sh with
  | SNil => []
  | SCons k _ rest => k :: shape_keys rest
  end.

Fixpoint shape_get (sh : shape) (k : key) : option schema :=
  match sh with
  | SNil => None
  | SCons k' s rest => if String.eqb k k' then Some s else shape_get rest k
  end.

(** One entry of [pairs] in [ZodObject._parse]. *)
Record pair : Type :=
  Pair { p_key : key; p_value : parse_return; p_alwaysSet : bool }.

(** The issue one check of [ZodString._parse] adds, if any. *)
Definition check_issue (c : string_check) (s : jsstring) : list issue_data :=
  match c with
  | CMin n => if (List.length s <? n)%nat then [too_small n] else []
  | CMax n => if (n <? List.length s)%nat then [too_big n] else []
  | CEmail => if Email.test s then [] else [invalid_string_email]
  end.

Definition at_path (p : list key) (d : issue_data) : issue := Issue p d.

Definition is_undefined (v : value) : bool :=
  match v with VUndefined => true | _ => false end.

(** Whether [mergeObjectSync] writes the pair into the final object:
    [key !== "__proto__" && (typeof value !== "undefined" || alwaysSet)]. *)
Definition kept (k : key) (v : value) (alwaysSet : bool) : bool :=
  negb (String.eqb k "__proto__") && (negb (is_undefined v) || alwaysSet).

(** [ParseStatus.mergeObjectSync] after the status of the object itself:
    [None] when a value is aborted, else whether some value is dirty and
    the final object. *)
Fixpoint mergeObjectSync (pairs : list pair) : option (bool * obj) :=
  match pairs with
  | [] => Some (false, [])
  | p :: rest =>
      let next (d : bool) (v : value) :=
        match mergeObjectSync rest with
        | None => None
        | Some (d', o) =>
            Some (d || d',
                  if kept (p_key p) v (p_alwaysSet p)
                  then (p_key p, v) :: o else o)
        end in
      match p_value p with
      | INVALID => None
      | OK v => next false v
      | DIRTY v => next true v
      end
  end.

Fixpoint parse (s : schema) (input : value) (pth : list key) {struct s}
  : js parse_return :=
  match s with
  | ZString checks =>
      match input with
      | VStr str =>
          let added := flat_map (fun c => check_issue c str) checks in
          Ret (match added with [] => OK input | _ => DIRTY input end)
              (map (at_path pth) added)
      | _ =>
          Ret INVALID
              [Issue pth (invalid_type (ExpType TString) (getParsedType input))]
      end
  | ZEnum values =>
      match input with
      | VStr str =>
          if existsb (jsstring_eqb str) values then Ret (OK input) []
          else Ret INVALID [Issue pth (invalid_enum_value values str)]
      | _ =>
          Ret INVALID
              [Issue pth (invalid_type (ExpOneOf values) (getParsedType input))]
      end
  | ZOptional inner =>
      match input with
      | VUndefined => Ret (OK VUndefined) []
      | _ => parse inner input pth
      end
  | ZNullable inner =>
      match input with
      | VNull => Ret (OK VNull) []
      | _ => parse inner input pth
      end
  | ZPreprocess transform inner =>
      match transform input with
      | inl e => Throw e
      | inr processed => parse inner processed pth
      end
  | ZObject fields policy =>
      match input with
      | VObj o =>
          let extraKeys :=
            match policy with
            | Strip => []
            | Strict =>
                filter (fun k => negb (mem_key k (shape_keys fields))) (keys o)
            end in
          pairs <- parse_shape fields o pth ;;
          let unrecognized :=
            match extraKeys with
            | [] => []
            | _ => [Issue pth (unrecognized_keys extraKeys)]
            end in
          Ret (match mergeObjectSync pairs with
               | None => INVALID
               | Some (dirty, final) =>
                   match unrecognized, dirty with
                   | [], false => OK (VObj final)
                   | _, _ => DIRTY (VObj final)
                   end
               end)
              unrecognized
      | _ =>
          Ret INVALID
              [Issue pth (invalid_type (ExpType TObject) (getParsedType input))]
      end
  | ZSuperRefine inner refinement =>
      r <- parse inner input pth ;;
      match r with
      | INVALID => Ret INVALID []
      | OK v =>
          let added := refinement v in
          Ret (match added with [] => OK v | _ => DIRTY v end)
              (map (fun i => Issue (pth ++ path i) (data i)) added)
      | DIRTY v =>
          Ret (DIRTY v)
              (map (fun i => Issue (pth ++ path i) (data i)) (refinement v))
      end
  end
with parse_shape (sh : shape) (o : obj) (pth : list key) {struct sh}
  : js (list pair) :=
  match sh with
  | SNil => Ret [] []
  | SCons k s rest =>
      r <- parse s (get o k) (pth ++ [k]) ;;
      rs <- parse_shape rest o pth ;;
      Ret (Pair k r (has_key o k) :: rs) []
  end.

(** [SafeParseReturnType] *)
Inductive result : Type :=
| Success (data : value)
| Failure (issues : list issue).

(** [schema.safeParse(data)]: run the parser at the empty path, then
    [handleResult]. *)
Definition safeParse (s : schema) (input : value) : exn + result :=
  match parse s input [] with
  | Throw e => inl e
  | Ret (OK v) _ => inr (Success v)
  | Ret _ [] => inl (Error "Validation failed but no issues detected.")
  | Ret _ issues => inr (Failure issues)
  end.

(* ------------------------------------------------------------------ *)
(** *** The combinators as the source chains them *)

Module z.
Definition string : schema := ZString [].
Definition min (n : nat) (s : schema) : schema :=
  match s with ZString cs => ZString (cs ++ [CMin n]) | _ => s end.
Definition max (n : nat) (s : schema) : schema :=
  match s with ZString cs => ZString (cs ++ [CMax n]) | _ => s end.
Definition email (s : schema) : schema :=
  match s with ZString cs => ZString (cs ++ [CEmail]) | _ => s end.
Definition enum (values : list jsstring) : schema := ZEnum values.
Definition optional (s : schema) : schema := ZOptional s.
Definition nullable (s : schema) : schema := ZNullable s.
Definition nullish (s : schema) : schema := optional (nullable s).
Definition preprocess (f : value -> exn + value) (s : schema) : schema :=
  ZPreprocess f s.
Definition object (sh : shape) : schema := ZObject sh Strip.
Definition strict (s : schema) : schema :=
  match s with ZObject sh _ => ZObject sh Strict | _ => s end.
Definition superRefine (f : value -> list issue) (s : schema) : schema :=
  ZSuperRefine s f.
End z.

Declare Scope shape_scope.
Delimit Scope shape_scope with shape.
Notation "k :- s ; rest" := (SCons k s rest)
  (at level 60, s at next level, right associativity) : shape_scope.
Notation "k :- s" := (SCons k s SNil)
  (at level 60, s at next level) : shape_scope.

(* ================================================================== *)
(** ** The validators *)

(** [(val: string) => val?.trim()]: the optional chain stops at
    [undefined] and [null]; any other value has its [trim] property
    called, which only a string has. *)
Definition trim_if_present (val : value) : exn + value :=
  match val with
  | VUndefined | VNull => inr VUndefined
  | VStr s => inr (VStr (trim s))
  | _ => inl TypeError
  end.

(** [(val: string) => val.trim()] *)
Definition trim_always (val : value) : exn + value :=
  match val with
  | VStr s => inr (VStr (trim s))
  | _ => inl TypeError
  end.

Definition business_message (field : key) : string :=
  if String.eqb field "company_name"
  then "Company name is required for business registration"
  else if String.eqb field "vat_number"
  then "VAT number is required for business registration"
  else "Tax office is required for business registration".

(** The callback given to [superRefine]; each [ctx.addIssue] call is one
    element of the returned list. *)
Definition business_refinement (d : value) : list issue :=
  match d with
  | VObj o =>
      match get o "registration_type" with
      | VStr t =>
          if jsstring_eqb t (lit "business") then
            (if falsy (get o "company_name")
             then [Issue ["company_name"]
                     (custom "Company name is required for business registration")]
             else []) ++
            (if falsy (get o "vat_number")
             then [Issue ["vat_number"]
                     (custom "VAT number is required for business registration")]
             else []) ++
            (if falsy (get o "tax_office")
             then [Issue ["tax_office"]
                     (custom "Tax office is required for business registration")]
             else [])
          else []
      | _ => []
      end
  | _ => []
  end.

Definition registration_types : list jsstring :=
  [lit "individual"; lit "business"].

Definition member_shape : shape :=
  ( "name" :- z.string ;
    "email" :- z.email z.string ;
    "bio" :- z.optional (z.nullish z.string) ;
    "phone" :- z.optional (z.nullish z.string) ;
    "photo" :- z.optional (z.nullish z.string) )%shape.

Definition VendorCreateSeller_shape : shape :=
  ( "registration_type" :- z.enum registration_types ;
    "name" :- z.preprocess trim_if_present (z.min 1 z.string) ;
    "description" :- z.optional (z.nullish z.string) ;
    "photo" :- z.optional (z.nullish z.string) ;
    "email" :- z.nullish (z.email z.string) ;
    "phone" :- z.optional (z.nullish z.string) ;
    "address_line" :- z.optional (z.nullish z.string) ;
    "city" :- z.optional (z.nullish z.string) ;
    "state" :- z.optional (z.nullish z.string) ;
    "postal_code" :- z.optional (z.nullish z.string) ;
    "country_code" :- z.optional (z.nullish z.string) ;
    "tax_id" :- z.optional (z.nullish z.string) ;
    "company_name" :- z.nullable (z.optional z.string) ;
    "vat_number" :- z.nullable (z.optional z.string) ;
    "tax_office" :- z.nullable (z.optional z.string) ;
    "member" :- z.object member_shape )%shape.

Definition VendorCreateSeller : schema :=
  z.superRefine business_refinement
    (z.strict (z.object VendorCreateSeller_shape)).

Definition VendorUpdateSeller_shape : shape :=
  ( "registration_type" :- z.optional (z.enum registration_types) ;
    "name" :- z.optional (z.preprocess trim_always (z.min 4 z.string)) ;
    "description" :- z.optional z.string ;
    "photo" :- z.optional z.string ;
    "email" :- z.optional (z.email z.string) ;
    "phone" :- z.optional z.string ;
    "address_line" :- z.optional z.string ;
    "city" :- z.optional z.string ;
    "state" :- z.optional z.string ;
    "postal_code" :- z.optional z.string ;
    "country_code" :- z.optional z.string ;
    "tax_id" :- z.optional z.string ;
    "company_name" :- z.nullable (z.optional z.string) ;
    "vat_number" :- z.nullable (z.optional z.string) ;
    "tax_office" :- z.nullable (z.optional z.string) )%shape.

Definition VendorUpdateSeller : schema :=
  z.strict (z.object VendorUpdateSeller_shape).

Definition VendorUpdateReview : schema :=
  z.object ( "seller_note" :- z.max 300 z.string )%shape.

(* ================================================================== *)
(** ** Auxiliary definitions used in the statements *)

(** A string with no whitespace at its start. *)
Definition starts_clean (s : jsstring) : Prop :=
  match s with
  | [] => True
  | c :: _ => is_ws c = false
  end.

(** Neither the first nor the last code unit is whitespace. *)
Definition is_trimmed (s : jsstring) : bool :=
  match s with
  | [] => true
  | c :: _ => negb (is_ws c) && negb (is_ws (last s c))
  end.

(** The issue raised for unknown keys under each policy. *)
Definition extra_keys (policy : unknown_keys) (fields : shape) (o : obj)
  : list key :=
  match policy with
  | Strip => []
  | Strict => filter (fun k => negb (mem_key k (shape_keys fields))) (keys o)
  end.

Definition unrecognized (policy : unknown_keys) (fields : shape) (o : obj)
  (p : list key) : list issue :=
  match extra_keys policy fields o with
  | [] => []
  | ks => [Issue p (unrecognized_keys ks)]
  end.

Definition object_return (pairs : list pair) (unrec : list issue)
  : parse_return :=
  match mergeObjectSync pairs with
  | None => INVALID
  | Some (dirty, final) =>
    match unrec, dirty with
    | [], false => OK (VObj final)
    | _, _ => DIRTY (VObj final)
    end
  end.

Definition refine_return (refinement : value -> list issue) (p : list key)
  (r : parse_return) : js parse_return :=
  match r with
  | INVALID => Ret INVALID []
  | OK v =>
    Ret (match refinement v with [] => OK v | _ => DIRTY v end)
        (map (fun i => Issue (p ++ path i) (data i)) (refinement v))
  | DIRTY v =>
    Ret (DIRTY v)
        (map (fun i => Issue (p ++ path i) (data i)) (refinement v))
  end.

Definition is_OK (r : parse_return) : Prop := exists v, r = OK v.

(** A parser returns [OK] exactly when it added no issue. *)
Definition agrees (r : parse_return) (added : list issue) : Prop :=
  added = [] <-> is_OK r.

(** A property of every field rule of a shape. *)
Fixpoint shape_all (P : key -> schema -> Prop) (sh : shape) : Prop :=
  match sh with
  | SNil => True
  | SCons k s rest => P k s /\ shape_all P rest
  end.

(** No [preprocess] callback anywhere in the schema. *)
Fixpoint callback_free (s : schema) : bool :=
  match s with
  | ZString _ | ZEnum _ => true
  | ZOptional inner | ZNullable inner => callback_free inner
  | ZPreprocess _ _ => false
  | ZObject fields _ => shape_callback_free fields
  | ZSuperRefine inner _ => callback_free inner
  end
with shape_callback_free (sh : shape) : bool :=
  match sh with
  | SNil => true
  | SCons _ s rest => callback_free s && shape_callback_free rest
  end.

(** The parser returns (does not raise) on this input. *)
Definition returns {A} (m : js A) : Prop := exists a added, m = Ret a added.

(** A value whose [trim] property is not a function. *)
Definition no_trim_method (v : value) : bool :=
  match v with
  | VBool _ | VNum _ | VArr _ | VObj _ => true
  | VUndefined | VNull | VStr _ => false
  end.

(** [(k, s)] is a field rule of the shape. *)
Fixpoint shape_in (k : key) (s : schema) (sh : shape) : Prop :=
  match sh with
  | SNil => False
  | SCons k' s' rest => (k = k' /\ s = s') \/ shape_in k s rest
  end.

(** What the rule of field [k] does with a present [null]. *)
Definition null_outcome (sh : shape) (k : key) : option (js parse_return) :=
  match shape_get sh k with
  | Some s => Some (parse s VNull [k])
  | None => None
  end.

Definition accepts_null (sh : shape) (k : key) : bool :=
  match null_outcome sh k with
  | Some (Ret (OK VNull) []) => true
  | _ => false
  end.

(** The ten general seller fields after [name]. *)
Definition general_fields : list key :=
  ["description"; "photo"; "email"; "phone"; "address_line"; "city";
   "state"; "postal_code"; "country_code"; "tax_id"].

(** The fields the business rule requires. *)
Definition business_fields : list key :=
  ["company_name"; "vat_number"; "tax_office"].

(** The issue path starts with the path of the parser that added it. *)
Definition below (p : list key) (i : issue) : Prop :=
  exists q, path i = p ++ q.

(** The value a parser returns when it does not abort: the normalized
    record of the specification.  It does not depend on the checks. *)
Fixpoint normalize (s : schema) (v : value) {struct s} : value :=
  match s with
  | ZString _ | ZEnum _ => v
  | ZOptional inner =>
      match v with VUndefined => VUndefined | _ => normalize inner v end
  | ZNullable inner =>
      match v with VNull => VNull | _ => normalize inner v end
  | ZPreprocess transform inner =>
      match transform v with
      | inr processed => normalize inner processed
      | inl _ => v
      end
  | ZObject fields _ =>
      match v with VObj o => VObj (normalize_shape fields o) | _ => v end
  | ZSuperRefine inner _ => normalize inner v
  end
with normalize_shape (sh : shape) (o : obj) {struct sh} : obj :=
  match sh with
  | SNil => []
  | SCons k s rest =>
      if kept k (normalize s (get o k)) (has_key o k)
      then (k, normalize s (get o k)) :: normalize_shape rest o
      else normalize_shape rest o
  end.

(** A return that is aborted or carries the value [v]. *)
Definition carries (r : parse_return) (v : value) : Prop :=
  r = OK v \/ r = DIRTY v \/ r = INVALID.

(** Some field of the record aborted. *)
Definition aborted (pairs : list pair) : bool :=
  existsb (fun p => match p_value p with INVALID => true | _ => false end)
          pairs.

(** The field rules of the create schema in the words of the
    specification (type, optionality, nullability, length after trimming,
    e-mail format), one declared field after the other. *)
Definition optional_nullable_string (v : value) : bool :=
  match v with
  | VUndefined | VNull | VStr _ => true
  | _ => false
  end.

Definition optional_nullable_email (v : value) : bool :=
  match v with
  | VUndefined | VNull => true
  | VStr s => Email.test s
  | _ => false
  end.

Definition required_string (v : value) : bool :=
  match v with VStr _ => true | _ => false end.

Definition required_email (v : value) : bool :=
  match v with VStr s => Email.test s | _ => false end.

Definition one_of (options : list jsstring) (v : value) : bool :=
  match v with
  | VStr s => existsb (jsstring_eqb s) options
  | _ => false
  end.

Definition trimmed_at_least (n : nat) (v : value) : bool :=
  match v with
  | VStr s => (n <=? List.length (trim s))%nat
  | _ => false
  end.

Definition member_rules (v : value) : bool :=
  match v with
  | VObj m =>
      required_string (get m "name") &&
      required_email (get m "email") &&
      optional_nullable_string (get m "bio") &&
      optional_nullable_string (get m "phone") &&
      optional_nullable_string (get m "photo")
  | _ => false
  end.

Definition satisfies_create_rules (o : obj) : bool :=
  one_of registration_types (get o "registration_type") &&
  trimmed_at_least 1 (get o "name") &&
  optional_nullable_string (get o "description") &&
  optional_nullable_string (get o "photo") &&
  optional_nullable_email (get o "email") &&
  optional_nullable_string (get o "phone") &&
  optional_nullable_string (get o "address_line") &&
  optional_nullable_string (get o "city") &&
  optional_nullable_string (get o "state") &&
  optional_nullable_string (get o "postal_code") &&
  optional_nullable_string (get o "country_code") &&
  optional_nullable_string (get o "tax_id") &&
  optional_nullable_string (get o "company_name") &&
  optional_nullable_string (get o "vat_number") &&
  optional_nullable_string (get o "tax_office") &&
  member_rules (get o "member").

(** The issue the business rule raises for one of its fields. *)
Definition business_issue (k : key) : issue :=
  Issue [k] (custom (business_message k)).

(** A dependent field that counts as not provided. *)
Definition not_provided (v : value) : Prop :=
  v = VUndefined \/ v = VNull \/ v = VStr [].

Definition is_conditional (i : issue) : bool :=
  match kind_of (data i) with
  | ConditionalRequirementUnmet => true
  | _ => false
  end.

(** What the rule of field [k] returns on the record [o]. *)
Definition field_outcome (sh : shape) (o : obj) (k : key)
  : option (js parse_return) :=
  match shape_get sh k with
  | Some s => Some (parse s (get o k) [k])
  | None => None
  end.

(** Sample records used in the examples below. *)
Definition ann : value :=
  VObj [("name", VStr (lit "Ann")); ("email", VStr (lit "ann@shop.example"))].

Definition business_shop : obj :=
  [("registration_type", VStr (lit "business"));
   ("name", VStr (lit "  Shop "));
   ("member", ann)].

Definition individual_shop : obj :=
  [("registration_type", VStr (lit "individual"));
   ("name", VStr (lit "  Shop "));
   ("description", VStr (lit " x "));
   ("member", ann)].

Definition mistyped_business_shop : obj :=
  ("description", VNum 5) :: business_shop.

Definition misaddressed_business_shop : obj :=
  [("registration_type", VStr (lit "business"));
   ("name", VStr (lit "Shop"));
   ("member", VObj [("name", VStr (lit "Ann"));
                    ("email", VStr (lit "not-an-email"))])].

(** Parsing an accepted value again accepts it unchanged. *)
Definition idempotent (s : schema) : Prop :=
  forall x v p, parse s x p = Ret (OK v) [] -> parse s v p = Ret (OK v) [].

(** A value that is not an object: zod answers it at the root. *)
Definition is_object (v : value) : bool :=
  match v with VObj _ => true | _ => false end.

Definition is_null (v : value) : bool :=
  match v with VNull => true | _ => false end.

(** The answer of any [z.object] to a value that is not an object. *)
Definition not_an_object (v : value) : result :=
  Failure [Issue [] (invalid_type (ExpType TObject) (getParsedType v))].

(** The business rule finds nothing to report: the registration is not a
    business one, or all three business fields are truthy. *)
Definition business_complete (o : obj) : bool :=
  negb (one_of [lit "business"] (get o "registration_type")) ||
  (negb (falsy (get o "company_name")) &&
   negb (falsy (get o "vat_number")) &&
   negb (falsy (get o "tax_office"))).

(** The field rules of the update schema, one declared field after the
    other: every field may be absent; only the three business fields may
    be [null]. *)
Definition optional_string (v : value) : bool :=
  match v with
  | VUndefined | VStr _ => true
  | _ => false
  end.

Definition optional_email (v : value) : bool :=
  match v with
  | VUndefined => true
  | VStr s => Email.test s
  | _ => false
  end.

Definition optional_one_of (options : list jsstring) (v : value) : bool :=
  match v with
  | VUndefined => true
  | _ => one_of options v
  end.

Definition optional_trimmed_at_least (n : nat) (v : value) : bool :=
  match v with
  | VUndefined => true
  | _ => trimmed_at_least n v
  end.

Definition satisfies_update_rules (o : obj) : bool :=
  optional_one_of registration_types (get o "registration_type") &&
  optional_trimmed_at_least 4 (get o "name") &&
  optional_string (get o "description") &&
  optional_string (get o "photo") &&
  optional_email (get o "email") &&
  optional_string (get o "phone") &&
  optional_string (get o "address_line") &&
  optional_string (get o "city") &&
  optional_string (get o "state") &&
  optional_string (get o "postal_code") &&
  optional_string (get o "country_code") &&
  optional_string (get o "tax_id") &&
  optional_nullable_string (get o "company_name") &&
  optional_nullable_string (get o "vat_number") &&
  optional_nullable_string (get o "tax_office").

Definition complete_business_shop : obj :=
  [("vat_number", VStr (lit "EL123456789"));
   ("registration_type", VStr (lit "business"));
   ("tax_office", VStr (lit "Patras A"));
   ("name", VStr (lit " Shop Ltd "));
   ("member", ann);
   ("company_name", VStr (lit "Shop Ltd"))].

(** The issues of the declared fields of a record, field after field in
    declaration order. *)
Fixpoint field_issues (sh : shape) (o : obj) (p : list key) : list issue :=
  match sh with
  | SNil => []
  | SCons k s rest =>
      match parse s (get o k) (p ++ [k]) with
      | Ret _ a => a
      | Throw _ => []
      end ++ field_issues rest o p
  end.

(** Some declared field of the record returns [INVALID]. *)
Fixpoint field_aborts (sh : shape) (o : obj) (p : list key) : bool :=
  match sh with
  | SNil => false
  | SCons k s rest =>
      match parse s (get o k) (p ++ [k]) with
      | Ret INVALID _ => true
      | _ => false
      end || field_aborts rest o p
  end.

(** A rule with no object and no refinement inside: all its issues are
    at its own path. *)
Fixpoint leaf (s : schema) : bool :=
  match s with
  | ZString _ | ZEnum _ => true
  | ZOptional inner | ZNullable inner | ZPreprocess _ inner => leaf inner
  | ZObject _ _ | ZSuperRefine _ _ => false
  end.

Fixpoint shape_leaf (sh : shape) : bool :=
  match sh with
  | SNil => true
  | SCons _ s rest => leaf s && shape_leaf rest
  end.

(** No [superRefine] anywhere in the schema. *)
Fixpoint refinement_free (s : schema) : bool :=
  match s with
  | ZString _ | ZEnum _ => true
  | ZOptional inner | ZNullable inner | ZPreprocess _ inner =>
      refinement_free inner
  | ZObject fields _ => shape_refinement_free fields
  | ZSuperRefine _ _ => false
  end
with shape_refinement_free (sh : shape) : bool :=
  match sh with
  | SNil => true
  | SCons _ s rest => refinement_free s && shape_refinement_free rest
  end.

(** The paths an issue of the create schema can have: the root, a
    declared field, a declared field of [member]. *)
Definition create_paths : list (list key) :=
  [] :: map (fun k => [k]) (shape_keys VendorCreateSeller_shape)
     ++ map (fun k => ["member"; k]) (shape_keys member_shape).


(** A string with at least one code unit. *)
Definition non_empty_string (v : value) : bool :=
  match v with
  | VStr (_ :: _) => true
  | _ => false
  end.

Definition blank_business_shop : obj :=
  [("registration_type", VStr (lit "business"));
   ("name", VStr (lit "Shop"));
   ("company_name", VStr (lit " "));
   ("vat_number", VStr (lit " "));
   ("tax_office", VStr (lit " "));
   ("member", ann)].

(* ------------------------------------------------------------------ *)
(** *** The zod 3.22 line

    In the 3.22 releases [ZodEffects._parse] handles a [preprocess]
    effect by calling the callback and then, when the parse context
    already holds an issue ([ctx.common.issues.length] is not zero),
    returning [{status: "dirty", value: ctx.data}] without running the
    inner schema.  Release 3.23 removed that early return.  Nothing else
    the three schemas use differs between the two lines.

    [parse_3_22] is [parse] with that early return; [held] says whether
    the context already holds an issue when the parser is entered. *)

Inductive zod_line : Type := Zod_3_22 | Zod_3_23.

Definition holds_issue (held : bool) (added : list issue) : bool :=
  match added with
  | [] => held
  | _ => true
  end.

Fixpoint parse_3_22 (s : schema) (input : value) (pth : list key)
  (held : bool) {struct s} : js parse_return :=
  match s with
  | ZString _ | ZEnum _ => parse s input pth
  | ZOptional inner =>
      match input with
      | VUndefined => Ret (OK VUndefined) []
      | _ => parse_3_22 inner input pth held
      end
  | ZNullable inner =>
      match input with
      | VNull => Ret (OK VNull) []
      | _ => parse_3_22 inner input pth held
      end
  | ZPreprocess transform inner =>
      match transform input with
      | inl e => Throw e
      | inr processed =>
          if held then Ret (DIRTY input) []
          else parse_3_22 inner processed pth held
      end
  | ZObject fields policy =>
      match input with
      | VObj o =>
          pairs <- parse_shape_3_22 fields o pth held ;;
          Ret (object_return pairs (unrecognized policy fields o pth))
              (unrecognized policy fields o pth)
      | _ =>
          Ret INVALID
              [Issue pth (invalid_type (ExpType TObject) (getParsedType input))]
      end
  | ZSuperRefine inner refinement =>
      r <- parse_3_22 inner input pth held ;;
      refine_return refinement pth r
  end
with parse_shape_3_22 (sh : shape) (o : obj) (pth : list key)
  (held : bool) {struct sh} : js (list pair) :=
  match sh with
  | SNil => Ret [] []
  | SCons k s rest =>
      match parse_3_22 s (get o k) (pth ++ [k]) held with
      | Throw e => Throw e
      | Ret r added =>
          match parse_shape_3_22 rest o pth (holds_issue held added) with
          | Throw e => Throw e
          | Ret rs more => Ret (Pair k r (has_key o k) :: rs) (added ++ more)
          end
      end
  end.

Definition safeParse_3_22 (s : schema) (input : value) : exn + result :=
  match parse_3_22 s input [] false with
  | Throw e => inl e
  | Ret (OK v) _ => inr (Success v)
  | Ret _ [] => inl (Error "Validation failed but no issues detected.")
  | Ret _ issues => inr (Failure issues)
  end.

(** [safeParse] on a release line. *)
Definition safeParse_on (line : zod_line) (s : schema) (v : value)
  : exn + result :=
  match line with
  | Zod_3_22 => safeParse_3_22 s v
  | Zod_3_23 => safeParse s v
  end.

(** The fields of a shape after the first [n]. *)
Fixpoint shape_skip (n : nat) (sh : shape) : shape :=
  match n, sh with
  | S m, SCons _ _ rest => shape_skip m rest
  | _, _ => sh
  end.

Definition misregistered_blank_shop : obj :=
  [("registration_type", VStr (lit "company"));
   ("name", VStr (lit "   "));
   ("member", ann)].





Definition misregistered_short_update : obj :=
  [("registration_type", VNum 2); ("name", VStr (lit " ab "))].

(* ================================================================== *)
(** * Lemmas and theorems *)

(* ================================================================== *)
(** ** Properties of [trim] *)

Lemma trimStart_clean s : starts_clean (trimStart s).
Proof.
  induction s as [|c s IH]; simpl; [exact I|].
  destruct (is_ws c) eqn:E; [exact IH | exact E].
Qed.

Lemma trimStart_fixed s : starts_clean s -> trimStart s = s.
Proof. destruct s as [|c s]; simpl; [reflexivity|]. intros ->. reflexivity. Qed.

Lemma trimEnd_clean s : starts_clean s -> starts_clean (trimEnd s).
Proof.
  destruct s as [|c s]; simpl; [exact (fun H => H)|].
  intros E. destruct (trimEnd s); [rewrite E|]; exact E.
Qed.

Lemma trimEnd_idem s : trimEnd (trimEnd s) = trimEnd s.
Proof.
  induction s as [|c s IH]; simpl; [reflexivity|].
  destruct (trimEnd s) as [|d t] eqn:E.
  - destruct (is_ws c) eqn:W; simpl; [reflexivity|]. rewrite W. reflexivity.
  - change (trimEnd (c :: d :: t)) with
      (match trimEnd (d :: t) with
       | [] => if is_ws c then [] else [c]
       | r => c :: r
       end).
    rewrite IH. reflexivity.
Qed.

Lemma trim_idem s : trim (trim s) = trim s.
Proof.
  unfold trim.
  rewrite (trimStart_fixed (trimEnd (trimStart s))).
  - apply trimEnd_idem.
  - apply trimEnd_clean, trimStart_clean.
Qed.

Lemma trimStart_ws s : forallb is_ws s = true -> trimStart s = [].
Proof.
  induction s as [|c s IH]; simpl; [reflexivity|].
  intros H. apply andb_prop in H as [-> H]. exact (IH H).
Qed.

Lemma trim_ws s : forallb is_ws s = true -> trim s = [].
Proof. intros H. unfold trim. rewrite (trimStart_ws s H). reflexivity. Qed.

Lemma trimEnd_last s c :
  trimEnd s <> [] -> is_ws (last (trimEnd s) c) = false.
Proof.
  induction s as [|d s IH]; simpl; [congruence|].
  destruct (trimEnd s) as [|e t] eqn:E.
  - destruct (is_ws d) eqn:W; [congruence|]. intros _. exact W.
  - intros _. change (last (d :: e :: t) c) with (last (e :: t) c).
    apply IH. congruence.
Qed.

Lemma trim_is_trimmed s : is_trimmed (trim s) = true.
Proof.
  pose proof (trimEnd_clean _ (trimStart_clean s)) as H.
  unfold trim. destruct (trimEnd (trimStart s)) as [|c t] eqn:E; [reflexivity|].
  unfold is_trimmed. simpl in H. rewrite H. rewrite <- E.
  rewrite trimEnd_last; [reflexivity|congruence].
Qed.

(* ================================================================== *)
(** ** The parser: structure of a run *)

Lemma bind_Ret_inv {A B} (m : js A) (f : A -> js B) b added :
bind m f = Ret b added ->
exists a is1 is2, m = Ret a is1 /\ f a = Ret b is2 /\ added = is1 ++ is2.
Proof.
unfold bind. destruct m as [e|a is1]; [discriminate|].
destruct (f a) as [e|b' is2] eqn:E; [discriminate|].
intros H. inversion H; subst. eauto 6.
Qed.

Lemma bind_Ret {A B} (m : js A) (f : A -> js B) a is1 b is2 :
m = Ret a is1 -> f a = Ret b is2 -> bind m f = Ret b (is1 ++ is2).
Proof. intros -> H. unfold bind. rewrite H. reflexivity. Qed.

Lemma parse_shape_cons k s rest o p :
parse_shape (SCons k s rest) o p =
(r <- parse s (get o k) (p ++ [k]) ;;
 rs <- parse_shape rest o p ;;
 Ret (Pair k r (has_key o k) :: rs) []).
Proof. reflexivity. Qed.

Lemma parse_shape_cons_inv k s rest o p pairs added :
parse_shape (SCons k s rest) o p = Ret pairs added ->
exists r is1 rs is2,
  parse s (get o k) (p ++ [k]) = Ret r is1 /\
  parse_shape rest o p = Ret rs is2 /\
  pairs = Pair k r (has_key o k) :: rs /\
  added = is1 ++ is2.
Proof.
rewrite parse_shape_cons. intros H.
apply bind_Ret_inv in H as (r & is1 & is' & Hr & H & ->).
apply bind_Ret_inv in H as (rs & is2 & is3 & Hrs & H & ->).
inversion H; subst. rewrite app_nil_r. eauto 10.
Qed.

Lemma parse_shape_cons_Ret k s rest o p r is1 rs is2 :
parse s (get o k) (p ++ [k]) = Ret r is1 ->
parse_shape rest o p = Ret rs is2 ->
parse_shape (SCons k s rest) o p =
Ret (Pair k r (has_key o k) :: rs) (is1 ++ is2).
Proof.
intros H1 H2. rewrite parse_shape_cons.
erewrite bind_Ret; [reflexivity | exact H1 |].
erewrite bind_Ret; [ rewrite app_nil_r; reflexivity | exact H2 | reflexivity].
Qed.

Lemma parse_object fields policy o p :
parse (ZObject fields policy) (VObj o) p =
(pairs <- parse_shape fields o p ;;
 Ret (object_return pairs (unrecognized policy fields o p))
     (unrecognized policy fields o p)).
Proof.
unfold unrecognized, extra_keys, object_return. simpl.
destruct policy; simpl; [reflexivity|].
destruct (filter _ (keys o)); reflexivity.
Qed.

Lemma parse_superRefine inner refinement v p :
parse (ZSuperRefine inner refinement) v p =
(r <- parse inner v p ;; refine_return refinement p r).
Proof. reflexivity. Qed.

(* ------------------------------------------------------------------ *)
(** *** Status and issues agree *)

Lemma app_nil_iff {A} (l1 l2 : list A) : l1 ++ l2 = [] <-> l1 = [] /\ l2 = [].
Proof.
split; [apply app_eq_nil|]. intros [-> ->]. reflexivity.
Qed.

Lemma status_agrees :
(forall s v p r added, parse s v p = Ret r added -> agrees r added) /\
(forall sh o p pairs added,
    parse_shape sh o p = Ret pairs added ->
    (added = [] <-> exists final, mergeObjectSync pairs = Some (false, final))).
Proof.
apply schema_mutind.
- (* string *)
  intros checks v p r added H. unfold agrees, is_OK.
  destruct v; simpl in H; inversion H; subst; clear H;
    try (split; [discriminate | intros [? ?]; discriminate]).
  destruct (flat_map _ checks); simpl.
  + split; eauto.
  + split; [discriminate | intros [? ?]; discriminate].
- (* enum *)
  intros values v p r added H. unfold agrees, is_OK.
  destruct v; simpl in H; try (inversion H; subst; clear H;
    split; [discriminate | intros [? ?]; discriminate]).
  destruct (existsb _ values); inversion H; subst.
  + split; eauto.
  + split; [discriminate | intros [? ?]; discriminate].
- (* optional *)
  intros inner IH v p r added H.
  destruct v; simpl in H; try (eapply IH; exact H).
  inversion H; subst. split; unfold is_OK; eauto.
- (* nullable *)
  intros inner IH v p r added H.
  destruct v; simpl in H; try (eapply IH; exact H).
  inversion H; subst. split; unfold is_OK; eauto.
- (* preprocess *)
  intros f inner IH v p r added H. simpl in H.
  destruct (f v); [discriminate|]. eapply IH; exact H.
- (* object *)
  intros fields IH policy v p r added H.
  destruct v;
    try (simpl in H; inversion H; subst; clear H; unfold agrees, is_OK;
         split; [discriminate | intros [? ?]; discriminate]).
  rewrite parse_object in H.
  apply bind_Ret_inv in H as (pairs & is1 & is2 & Hs & H & ->).
  inversion H; subst; clear H.
  apply IH in Hs. unfold agrees, is_OK, object_return.
  rewrite app_nil_iff, Hs. split.
  + intros [[final ->] ->]. eauto.
  + intros [v E]. destruct (mergeObjectSync pairs) as [[d final]|];
      [|discriminate].
    destruct (unrecognized policy fields fields0 p); destruct d;
      try discriminate. eauto.
- (* superRefine *)
  intros inner IH refinement v p r added H.
  rewrite parse_superRefine in H.
  apply bind_Ret_inv in H as (r1 & is1 & is2 & Hi & H & ->).
  apply IH in Hi. unfold agrees, is_OK in *. rewrite app_nil_iff, Hi.
  destruct r1 as [w|w|]; simpl in H; inversion H; subst; clear H.
  + destruct (refinement w); simpl; split.
    * eauto.
    * eauto.
    * intros [_ ?]; discriminate.
    * intros [? ?]; discriminate.
  + split; [intros [[? ?] _]; discriminate | intros [? ?]; discriminate].
  + split; [intros [[? ?] _]; discriminate | intros [? ?]; discriminate].
- (* empty shape *)
  intros o p pairs added H. inversion H; subst. simpl. split; eauto.
- (* field *)
  intros k s IHs rest IHr o p pairs added H.
  apply parse_shape_cons_inv in H as (r & is1 & rs & is2 & Hr & Hrs & -> & ->).
  apply IHs in Hr. apply IHr in Hrs. unfold agrees, is_OK in Hr.
  rewrite app_nil_iff, Hr, Hrs. simpl. split.
  + intros [[v ->] [final ->]]. simpl. eauto.
  + intros [final E]. destruct r as [v|v|]; try discriminate.
    * destruct (mergeObjectSync rs) as [[d f]|]; [|discriminate].
      simpl in E. inversion E; subst. eauto.
    * destruct (mergeObjectSync rs) as [[d f]|]; discriminate.
Qed.

Lemma parse_agrees s v p r added :
parse s v p = Ret r added -> agrees r added.
Proof. apply status_agrees. Qed.

(** [safeParse] in terms of the parser's return; the "no issues detected"
  branch of [handleResult] is dead. *)
Lemma safeParse_Ret s v r added :
parse s v [] = Ret r added ->
safeParse s v = inr (match r with
                     | OK w => Success w
                     | _ => Failure added
                     end).
Proof.
intros H. unfold safeParse. rewrite H.
pose proof (parse_agrees _ _ _ _ _ H) as [A _]. unfold is_OK in A.
destruct r as [w|w|]; [reflexivity| |];
  (destruct added; [destruct (A eq_refl); discriminate | reflexivity]).
Qed.

Lemma safeParse_Throw s v e : parse s v [] = Throw e -> safeParse s v = inl e.
Proof. intros H. unfold safeParse. rewrite H. reflexivity. Qed.

Lemma safeParse_Success_inv s v w :
safeParse s v = inr (Success w) -> parse s v [] = Ret (OK w) [].
Proof.
unfold safeParse. destruct (parse s v []) as [e|r added] eqn:H; [discriminate|].
pose proof (parse_agrees _ _ _ _ _ H) as [_ A].
destruct r as [x|x|].
- intros E. inversion E; subst. rewrite A; [reflexivity|]. red. eauto.
- destruct added; discriminate.
- destruct added; discriminate.
Qed.

(* ------------------------------------------------------------------ *)
(** *** Where exceptions can come from *)

Lemma callback_free_returns :
  (forall s, callback_free s = true -> forall v p, returns (parse s v p)) /\
  (forall sh, shape_callback_free sh = true ->
              forall o p, returns (parse_shape sh o p)).
Proof.
  apply schema_mutind; unfold returns.
  - intros checks _ v p. destruct v; simpl; eauto.
  - intros values _ v p. destruct v; simpl; eauto.
    destruct (existsb _ values); eauto.
  - intros inner IH F v p. destruct v; simpl; eauto; apply IH, F.
  - intros inner IH F v p. destruct v; simpl; eauto; apply IH, F.
  - discriminate.
  - intros fields IH policy F v p.
    destruct v; try (simpl; eauto; fail).
    rewrite parse_object.
    destruct (IH F fields0 p) as (pairs & a & ->). simpl. eauto.
  - intros inner IH refinement F v p. rewrite parse_superRefine.
    destruct (IH F v p) as (r & a & ->). destruct r; simpl; eauto.
  - intros _ o p. simpl. eauto.
  - intros k s IHs rest IHr F o p. simpl in F. apply andb_prop in F as [Fs Fr].
    destruct (IHs Fs (get o k) (p ++ [k])) as (r & a & Hr).
    destruct (IHr Fr o p) as (rs & b & Hrs).
    rewrite (parse_shape_cons_Ret _ _ _ _ _ _ _ _ _ Hr Hrs). eauto.
Qed.

Lemma parse_returns s v p : callback_free s = true -> returns (parse s v p).
Proof. intros F. apply callback_free_returns, F. Qed.

Lemma parse_shape_returns sh o p :
  shape_callback_free sh = true -> returns (parse_shape sh o p).
Proof. intros F. apply callback_free_returns, F. Qed.

Lemma parse_shape_cons_returns k s rest o p :
  returns (parse s (get o k) (p ++ [k])) ->
  returns (parse_shape rest o p) ->
  returns (parse_shape (SCons k s rest) o p).
Proof.
  intros (r & a & Hr) (rs & b & Hrs).
  rewrite (parse_shape_cons_Ret _ _ _ _ _ _ _ _ _ Hr Hrs). red. eauto.
Qed.

Lemma parse_shape_cons_Throw k s rest o p r a e :
  parse s (get o k) (p ++ [k]) = Ret r a ->
  parse_shape rest o p = Throw e ->
  parse_shape (SCons k s rest) o p = Throw e.
Proof.
  intros Hr Hrs. rewrite parse_shape_cons, Hr. simpl. rewrite Hrs. reflexivity.
Qed.

Lemma parse_shape_head_Throw k s rest o p e :
  parse s (get o k) (p ++ [k]) = Throw e ->
  parse_shape (SCons k s rest) o p = Throw e.
Proof. intros Hr. rewrite parse_shape_cons, Hr. reflexivity. Qed.

Lemma parse_object_Throw fields policy o p e :
  parse_shape fields o p = Throw e ->
  parse (ZObject fields policy) (VObj o) p = Throw e.
Proof. intros H. rewrite parse_object, H. reflexivity. Qed.

Lemma VendorCreateSeller_eq :
  VendorCreateSeller =
  ZSuperRefine (ZObject VendorCreateSeller_shape Strict) business_refinement.
Proof. reflexivity. Qed.

Lemma VendorUpdateSeller_eq :
  VendorUpdateSeller = ZObject VendorUpdateSeller_shape Strict.
Proof. reflexivity. Qed.

(** The issues of a whole run contain those of the fields. *)
Lemma parse_refined_object fields policy refinement o p pairs added :
  parse_shape fields o p = Ret pairs added ->
  exists r more,
    parse (ZSuperRefine (ZObject fields policy) refinement) (VObj o) p =
    Ret r (added ++ more).
Proof.
  intros H. rewrite parse_superRefine, parse_object, H. simpl.
  destruct (object_return pairs _); simpl; rewrite <- app_assoc; eauto.
Qed.

Lemma safeParse_Failure s v r added :
  parse s v [] = Ret r added -> added <> [] ->
  safeParse s v = inr (Failure added).
Proof.
  intros H N. rewrite (safeParse_Ret _ _ _ _ H).
  destruct r as [w| |]; try reflexivity.
  destruct (parse_agrees _ _ _ _ _ H) as [_ A]. destruct N. apply A. red. eauto.
Qed.

(* ================================================================== *)
(** ** Exceptions from the [name] callback *)

Lemma create_name_raises (o : obj) :
  match get o "name" with
  | VUndefined | VNull | VStr _ => False
  | _ => True
  end ->
  safeParse VendorCreateSeller (VObj o) = inl TypeError.
Proof.
  intros H. apply safeParse_Throw.
  rewrite VendorCreateSeller_eq, parse_superRefine.
  rewrite (parse_object_Throw _ _ _ _ TypeError); [reflexivity|].
  unfold VendorCreateSeller_shape.
  destruct (parse_returns (z.enum registration_types)
              (get o "registration_type") ([] ++ ["registration_type"])
              eq_refl) as (r & a & Hr).
  eapply parse_shape_cons_Throw; [exact Hr|].
  apply parse_shape_head_Throw. simpl.
  destruct (get o "name"); try contradiction; reflexivity.
Qed.

Lemma update_name_raises (o : obj) :
  match get o "name" with
  | VUndefined | VStr _ => False
  | _ => True
  end ->
  safeParse VendorUpdateSeller (VObj o) = inl TypeError.
Proof.
  intros H. apply safeParse_Throw.
  rewrite VendorUpdateSeller_eq.
  apply parse_object_Throw. unfold VendorUpdateSeller_shape.
  destruct (parse_returns (z.optional (z.enum registration_types))
              (get o "registration_type") ([] ++ ["registration_type"])
              eq_refl) as (r & a & Hr).
  eapply parse_shape_cons_Throw; [exact Hr|].
  apply parse_shape_head_Throw. simpl.
  destruct (get o "name"); try contradiction; reflexivity.
Qed.

(** C1 (code side): when [name] holds a value without a [trim] method (a
    number, a boolean, an array or an object), the [preprocess] callback
    of either seller schema raises a [TypeError], and [safeParse] lets it
    escape instead of returning a validation result. *)
Theorem name_without_trim_raises (o : obj) :
  no_trim_method (get o "name") = true ->
  safeParse VendorCreateSeller (VObj o) = inl TypeError /\
  safeParse VendorUpdateSeller (VObj o) = inl TypeError.
Proof.
  intros H. split.
  - apply create_name_raises. destruct (get o "name"); try discriminate; exact I.
  - apply update_name_raises. destruct (get o "name"); try discriminate; exact I.
Qed.

Lemma name_without_trim_raises_witness :
  safeParse VendorCreateSeller
    (VObj [("registration_type", VStr (lit "individual"));
           ("name", VNum 5);
           ("member", VObj [("name", VStr (lit "Ann"));
                            ("email", VStr (lit "ann@shop.example"))])])
  = inl TypeError /\
  safeParse VendorUpdateSeller
    (VObj [("registration_type", VStr (lit "individual"));
           ("name", VNum 5);
           ("member", VObj [("name", VStr (lit "Ann"));
                            ("email", VStr (lit "ann@shop.example"))])])
  = inl TypeError.
Proof. apply name_without_trim_raises. reflexivity. Defined.

(* ------------------------------------------------------------------ *)
(** *** Issues of a field are issues of the record *)

Lemma shape_field_issues sh o p pairs added :
  parse_shape sh o p = Ret pairs added ->
  shape_all (fun k s => forall r a,
                 parse s (get o k) (p ++ [k]) = Ret r a -> incl a added) sh.
Proof.
  revert pairs added. induction sh as [|k s rest IH]; intros pairs added H.
  - exact I.
  - apply parse_shape_cons_inv in H as (r & is1 & rs & is2 & Hr & Hrs & -> & ->).
    split.
    + intros r' a H'. rewrite Hr in H'. inversion H'; subst.
      apply incl_appl, incl_refl.
    + specialize (IH _ _ Hrs). revert IH. clear.
      induction rest as [|k' s' rest' IH']; simpl; [trivial|].
      intros [H1 H2]. split; [|exact (IH' H2)].
      intros r a H. apply incl_appr. eapply H1; exact H.
Qed.

Lemma parse_object_inv fields policy o p r added :
  parse (ZObject fields policy) (VObj o) p = Ret r added ->
  exists pairs a,
    parse_shape fields o p = Ret pairs a /\
    r = object_return pairs (unrecognized policy fields o p) /\
    added = a ++ unrecognized policy fields o p.
Proof.
  rewrite parse_object. intros H.
  apply bind_Ret_inv in H as (pairs & a & u & Hs & Hu & ->).
  inversion Hu; subst. eauto.
Qed.

Lemma create_shape_returns o :
  returns (parse (z.preprocess trim_if_present (z.min 1 z.string))
             (get o "name") ["name"]) ->
  returns (parse_shape VendorCreateSeller_shape o []).
Proof.
  intros Hn. unfold VendorCreateSeller_shape.
  apply parse_shape_cons_returns; [apply parse_returns; reflexivity|].
  apply parse_shape_cons_returns; [exact Hn|].
  apply parse_shape_returns. reflexivity.
Qed.

Lemma update_shape_returns o :
  returns (parse (z.optional (z.preprocess trim_always (z.min 4 z.string)))
             (get o "name") ["name"]) ->
  returns (parse_shape VendorUpdateSeller_shape o []).
Proof.
  intros Hn. unfold VendorUpdateSeller_shape.
  apply parse_shape_cons_returns; [apply parse_returns; reflexivity|].
  apply parse_shape_cons_returns; [exact Hn|].
  apply parse_shape_returns. reflexivity.
Qed.

(** The [name] rule of each seller schema on a string: the length check
    sees the trimmed string. *)
Lemma create_name_string s p :
  parse (z.preprocess trim_if_present (z.min 1 z.string)) (VStr s) p =
  if (List.length (trim s) <? 1)%nat
  then Ret (DIRTY (VStr (trim s))) [Issue p (too_small 1)]
  else Ret (OK (VStr (trim s))) [].
Proof. simpl. destruct (List.length (trim s) <? 1)%nat; reflexivity. Qed.

Lemma update_name_string s p :
  parse (z.optional (z.preprocess trim_always (z.min 4 z.string))) (VStr s) p =
  if (List.length (trim s) <? 4)%nat
  then Ret (DIRTY (VStr (trim s))) [Issue p (too_small 4)]
  else Ret (OK (VStr (trim s))) [].
Proof. simpl. destruct (List.length (trim s) <? 4)%nat; reflexivity. Qed.

Lemma create_name_issue o s :
  get o "name" = VStr s -> (List.length (trim s) < 1)%nat ->
  exists issues,
    safeParse VendorCreateSeller (VObj o) = inr (Failure issues) /\
    In (Issue ["name"] (too_small 1)) issues.
Proof.
  intros Hn Hl. apply Nat.ltb_lt in Hl.
  assert (Hname : parse (z.preprocess trim_if_present (z.min 1 z.string))
                    (get o "name") ([] ++ ["name"]) =
                  Ret (DIRTY (VStr (trim s))) [Issue ["name"] (too_small 1)]).
  { rewrite Hn, create_name_string, Hl. reflexivity. }
  destruct (create_shape_returns o) as (pairs & a & Hs).
  { red. eauto. }
  pose proof (shape_field_issues _ _ _ _ _ Hs) as (_ & Hin & _).
  specialize (Hin _ _ Hname).
  destruct (parse_refined_object _ Strict business_refinement _ _ _ _ Hs)
    as (r & more & Hp).
  rewrite <- VendorCreateSeller_eq in Hp.
  exists (a ++ more). split.
  - apply (safeParse_Failure _ _ _ _ Hp). intros E.
    apply app_eq_nil in E as [-> _]. apply (Hin _ (or_introl eq_refl)).
  - apply in_or_app. left. apply Hin. left. reflexivity.
Qed.

Lemma update_name_issue o s :
  get o "name" = VStr s -> (List.length (trim s) < 4)%nat ->
  exists issues,
    safeParse VendorUpdateSeller (VObj o) = inr (Failure issues) /\
    In (Issue ["name"] (too_small 4)) issues.
Proof.
  intros Hn Hl. apply Nat.ltb_lt in Hl.
  assert (Hname : parse (z.optional
                           (z.preprocess trim_always (z.min 4 z.string)))
                    (get o "name") ([] ++ ["name"]) =
                  Ret (DIRTY (VStr (trim s))) [Issue ["name"] (too_small 4)]).
  { rewrite Hn, update_name_string, Hl. reflexivity. }
  destruct (update_shape_returns o) as (pairs & a & Hs).
  { red. eauto. }
  pose proof (shape_field_issues _ _ _ _ _ Hs) as (_ & Hin & _).
  specialize (Hin _ _ Hname).
  assert (Hp : parse VendorUpdateSeller (VObj o) [] =
               Ret (object_return pairs
                      (unrecognized Strict VendorUpdateSeller_shape o []))
                   (a ++ unrecognized Strict VendorUpdateSeller_shape o [])).
  { rewrite VendorUpdateSeller_eq, parse_object, Hs. reflexivity. }
  eexists. split.
  - apply (safeParse_Failure _ _ _ _ Hp). intros E.
    apply app_eq_nil in E as [-> _]. apply (Hin _ (or_introl eq_refl)).
  - apply in_or_app. left. apply Hin. left. reflexivity.
Qed.

(* ================================================================== *)
(** ** The review schema *)

Lemma review_run o s :
  get o "seller_note" = VStr s ->
  parse VendorUpdateReview (VObj o) [] =
  if (300 <? List.length s)%nat
  then Ret (DIRTY (VObj [("seller_note", VStr s)]))
           [Issue ["seller_note"] (too_big 300)]
  else Ret (OK (VObj [("seller_note", VStr s)])) [].
Proof.
  intros H. unfold VendorUpdateReview. simpl. rewrite H. simpl.
  destruct (300 <? List.length s)%nat; reflexivity.
Qed.

(** C7: the bound of 300 on [seller_note] is inclusive.  A note of
    exactly 300 code units is accepted; one of 301 is rejected with a
    single length issue (maximum 300) at path [seller_note]. *)
Theorem seller_note_max_inclusive (o : obj) (s : jsstring) :
  get o "seller_note" = VStr s ->
  (List.length s = 300%nat ->
   safeParse VendorUpdateReview (VObj o) =
   inr (Success (VObj [("seller_note", VStr s)]))) /\
  (List.length s = 301%nat ->
   safeParse VendorUpdateReview (VObj o) =
   inr (Failure [Issue ["seller_note"] (too_big 300)]) /\
   kind_of (too_big 300) = LengthOutOfBounds).
Proof.
  intros H. pose proof (review_run o s H) as R. split; intros L.
  - rewrite L in R. erewrite safeParse_Ret by exact R. reflexivity.
  - rewrite L in R. erewrite safeParse_Ret by exact R. split; reflexivity.
Qed.

Lemma seller_note_max_inclusive_witness :
  safeParse VendorUpdateReview (VObj [("seller_note", VStr (repeat 97%N 300))])
  = inr (Success (VObj [("seller_note", VStr (repeat 97%N 300))])) /\
  safeParse VendorUpdateReview (VObj [("seller_note", VStr (repeat 97%N 301))])
  = inr (Failure [Issue ["seller_note"] (too_big 300)]).
Proof.
  split.
  - apply (seller_note_max_inclusive
             [("seller_note", VStr (repeat 97%N 300))] (repeat 97%N 300));
      reflexivity.
  - apply (seller_note_max_inclusive
             [("seller_note", VStr (repeat 97%N 301))] (repeat 97%N 301));
      reflexivity.
Defined.

(* ------------------------------------------------------------------ *)
(** *** Issue paths *)

Lemma shape_all_in P sh k s : shape_all P sh -> shape_in k s sh -> P k s.
Proof.
  induction sh as [|k' s' rest IH]; simpl; [contradiction|].
  intros [H1 H2] [[-> ->]|H]; auto.
Qed.

Lemma shape_get_in sh k s : shape_get sh k = Some s -> shape_in k s sh.
Proof.
  induction sh as [|k' s' rest IH]; simpl; [discriminate|].
  destruct (String.eqb_spec k k') as [->|N].
  - intros E. inversion E; subst. left. auto.
  - intros E. right. exact (IH E).
Qed.

Lemma shape_in_keys sh k s : shape_in k s sh -> In k (shape_keys sh).
Proof.
  induction sh as [|k' s' rest IH]; simpl; [contradiction|].
  intros [[-> _]|H]; auto.
Qed.

Lemma shape_in_get sh k s :
  NoDup (shape_keys sh) -> shape_in k s sh -> shape_get sh k = Some s.
Proof.
  induction sh as [|k' s' rest IH]; simpl; [contradiction|].
  intros N [[-> ->]|H].
  - rewrite String.eqb_refl. reflexivity.
  - inversion N; subst. destruct (String.eqb_spec k k') as [->|_].
    + destruct H2. eapply shape_in_keys; exact H.
    + apply IH; assumption.
Qed.

Lemma shape_issue_origin sh o p pairs added i :
  parse_shape sh o p = Ret pairs added -> In i added ->
  exists k s r a,
    shape_in k s sh /\ parse s (get o k) (p ++ [k]) = Ret r a /\ In i a.
Proof.
  revert pairs added. induction sh as [|k s rest IH]; intros pairs added H Hi.
  - inversion H; subst. destruct Hi.
  - apply parse_shape_cons_inv in H as (r & is1 & rs & is2 & Hr & Hrs & -> & ->).
    apply in_app_or in Hi as [Hi|Hi].
    + exists k, s, r, is1. simpl. auto.
    + destruct (IH _ _ Hrs Hi) as (k' & s' & r' & a' & Hin & Hp & Ha).
      exists k', s', r', a'. simpl. auto.
Qed.

Lemma below_app p k q i : below ((p ++ [k]) ++ q) i -> below p i.
Proof.
  intros [q' E]. exists ((k :: q) ++ q'). rewrite E.
  rewrite <- !app_assoc. reflexivity.
Qed.

Lemma issue_paths :
  (forall s v p r added, parse s v p = Ret r added -> Forall (below p) added) /\
  (forall sh o p pairs added,
      parse_shape sh o p = Ret pairs added -> Forall (below p) added).
Proof.
  assert (Here : forall p d, below p (Issue p d)).
  { intros p d. exists []. simpl. rewrite app_nil_r. reflexivity. }
  apply schema_mutind.
  - intros checks v p r added H.
    destruct v; simpl in H; inversion H; subst; clear H;
      try (constructor; [apply Here|constructor]).
    apply Forall_forall. intros i Hi. apply in_map_iff in Hi as (d & <- & _).
    apply Here.
  - intros values v p r added H.
    destruct v; simpl in H;
      try (inversion H; subst; constructor; [apply Here|constructor]).
    destruct (existsb _ values); inversion H; subst;
      [constructor | constructor; [apply Here|constructor]].
  - intros inner IH v p r added H.
    destruct v; simpl in H; try (eapply IH; exact H).
    inversion H; subst. constructor.
  - intros inner IH v p r added H.
    destruct v; simpl in H; try (eapply IH; exact H).
    inversion H; subst. constructor.
  - intros f inner IH v p r added H. simpl in H.
    destruct (f v); [discriminate|]. eapply IH; exact H.
  - intros fields IH policy v p r added H.
    destruct v;
      try (simpl in H; inversion H; subst; constructor; [apply Here|constructor]).
    apply parse_object_inv in H as (pairs & a & Hs & _ & ->).
    apply Forall_app. split; [eapply IH; exact Hs|].
    unfold unrecognized. destruct (extra_keys policy fields fields0);
      [constructor | constructor; [apply Here|constructor]].
  - intros inner IH refinement v p r added H.
    rewrite parse_superRefine in H.
    apply bind_Ret_inv in H as (r1 & is1 & is2 & Hi & H & ->).
    apply Forall_app. split; [eapply IH; exact Hi|].
    assert (Forall (below p)
              (map (fun i => Issue (p ++ path i) (data i)) (refinement
                 match r1 with OK w | DIRTY w => w | INVALID => VNull end))).
    { apply Forall_forall. intros i Hin.
      apply in_map_iff in Hin as (j & <- & _). exists (path j). reflexivity. }
    destruct r1; simpl in H; inversion H; subst; auto.
  - intros o p pairs added H. inversion H; subst. constructor.
  - intros k s IHs rest IHr o p pairs added H.
    apply parse_shape_cons_inv in H as (r & is1 & rs & is2 & Hr & Hrs & -> & ->).
    apply Forall_app. split; [|eapply IHr; exact Hrs].
    apply IHs in Hr. eapply Forall_impl; [|exact Hr].
    intros i Hi. apply (below_app p k []). rewrite app_nil_r. exact Hi.
Qed.

Lemma field_issue_path s v p k r a i :
  parse s v (p ++ [k]) = Ret r a -> In i a -> exists q, path i = p ++ k :: q.
Proof.
  intros H Hi. destruct issue_paths as [P _].
  pose proof (P _ _ _ _ _ H) as F. rewrite Forall_forall in F.
  destruct (F _ Hi) as [q E]. exists q. rewrite E, <- app_assoc. reflexivity.
Qed.

Lemma business_refinement_paths v i :
  In i (business_refinement v) -> In (path i) (map (fun k => [k]) business_fields).
Proof.
  unfold business_refinement. destruct v; try contradiction.
  destruct (get fields "registration_type"); try contradiction.
  destruct (jsstring_eqb s (lit "business")); [|contradiction].
  destruct (falsy (get fields "company_name"));
    destruct (falsy (get fields "vat_number"));
    destruct (falsy (get fields "tax_office")); simpl; intuition (subst; simpl; auto).
Qed.

Lemma parse_create_inv o r added :
  parse VendorCreateSeller (VObj o) [] = Ret r added ->
  exists pairs a,
    parse_shape VendorCreateSeller_shape o [] = Ret pairs a /\
    match object_return pairs (unrecognized Strict VendorCreateSeller_shape o [])
    with
    | INVALID =>
        r = INVALID /\
        added = a ++ unrecognized Strict VendorCreateSeller_shape o []
    | OK v =>
        r = match business_refinement v with [] => OK v | _ => DIRTY v end /\
        added = a ++ unrecognized Strict VendorCreateSeller_shape o []
                  ++ business_refinement v
    | DIRTY v =>
        r = DIRTY v /\
        added = a ++ unrecognized Strict VendorCreateSeller_shape o []
                  ++ business_refinement v
    end.
Proof.
  rewrite VendorCreateSeller_eq, parse_superRefine. intros H.
  apply bind_Ret_inv in H as (r1 & is1 & more & H1 & H2 & ->).
  apply parse_object_inv in H1 as (pairs & a & Hs & -> & ->).
  exists pairs, a. split; [exact Hs|].
  assert (M : forall v, map (fun i => Issue ([] ++ path i) (data i))
                          (business_refinement v) = business_refinement v).
  { intros v. rewrite <- (map_id (business_refinement v)) at 2.
    apply map_ext. intros []; reflexivity. }
  destruct (object_return pairs _) as [v|v|]; simpl in H2;
    inversion H2; subst; rewrite ?M, <- ?app_assoc, ?app_nil_r; auto.
Qed.

Lemma parse_create_run o pairs a :
  parse_shape VendorCreateSeller_shape o [] = Ret pairs a ->
  parse VendorCreateSeller (VObj o) [] =
  match object_return pairs (unrecognized Strict VendorCreateSeller_shape o [])
  with
  | INVALID =>
      Ret INVALID (a ++ unrecognized Strict VendorCreateSeller_shape o [])
  | OK v =>
      Ret (match business_refinement v with [] => OK v | _ => DIRTY v end)
          (a ++ unrecognized Strict VendorCreateSeller_shape o []
             ++ business_refinement v)
  | DIRTY v =>
      Ret (DIRTY v)
          (a ++ unrecognized Strict VendorCreateSeller_shape o []
             ++ business_refinement v)
  end.
Proof.
  intros Hs.
  destruct (parse_refined_object _ Strict business_refinement _ _ _ _ Hs)
    as (r & more & Hp).
  rewrite <- VendorCreateSeller_eq in Hp.
  destruct (parse_create_inv _ _ _ Hp) as (pairs' & a' & Hs' & H).
  rewrite Hs in Hs'. inversion Hs'; subst pairs' a'. rewrite Hp.
  destruct (object_return pairs _); destruct H as [-> ->]; reflexivity.
Qed.

(* ================================================================== *)
(** ** Unknown keys *)

Lemma unrecognized_present policy fields o p :
  extra_keys policy fields o <> [] ->
  unrecognized policy fields o p =
  [Issue p (unrecognized_keys (extra_keys policy fields o))].
Proof.
  unfold unrecognized. destruct (extra_keys policy fields o); congruence.
Qed.

(** C9: the review schema is not strict.  Whatever other keys the input
    carries, a [seller_note] of at most 300 code units is accepted and
    the normalized record holds [seller_note] alone.  The two seller
    schemas are strict: whenever they return a result on an input with an
    undeclared key, it is a failure carrying an unrecognized-keys issue
    that lists the undeclared keys. *)
Theorem review_strips_unknown_keys :
  (forall o s,
      get o "seller_note" = VStr s -> (List.length s <= 300)%nat ->
      safeParse VendorUpdateReview (VObj o) =
      inr (Success (VObj [("seller_note", VStr s)]))) /\
  (forall o res,
      extra_keys Strict VendorCreateSeller_shape o <> [] ->
      safeParse VendorCreateSeller (VObj o) = inr res ->
      exists issues,
        res = Failure issues /\
        In (Issue [] (unrecognized_keys
                        (extra_keys Strict VendorCreateSeller_shape o))) issues) /\
  (forall o res,
      extra_keys Strict VendorUpdateSeller_shape o <> [] ->
      safeParse VendorUpdateSeller (VObj o) = inr res ->
      exists issues,
        res = Failure issues /\
        In (Issue [] (unrecognized_keys
                        (extra_keys Strict VendorUpdateSeller_shape o))) issues).
Proof.
  split; [|split].
  - intros o s H L. pose proof (review_run o s H) as R.
    apply Nat.ltb_ge in L. rewrite L in R.
    erewrite safeParse_Ret by exact R. reflexivity.
  - intros o res X H.
    destruct (parse VendorCreateSeller (VObj o) []) as [e|r added] eqn:P.
    { rewrite (safeParse_Throw _ _ _ P) in H. discriminate. }
    assert (Hin : In (Issue [] (unrecognized_keys
                   (extra_keys Strict VendorCreateSeller_shape o))) added).
    { destruct (parse_create_inv _ _ _ P) as (pairs & a & _ & Hr).
      rewrite (unrecognized_present _ _ _ _ X) in Hr.
      destruct (object_return pairs _); destruct Hr as [_ ->];
        apply in_or_app; right; left; reflexivity. }
    rewrite (safeParse_Failure _ _ _ _ P) in H.
    + inversion H; subst. eauto.
    + intros ->. destruct Hin.
  - intros o res X H.
    destruct (parse VendorUpdateSeller (VObj o) []) as [e|r added] eqn:P.
    { rewrite (safeParse_Throw _ _ _ P) in H. discriminate. }
    assert (Hin : In (Issue [] (unrecognized_keys
                   (extra_keys Strict VendorUpdateSeller_shape o))) added).
    { rewrite VendorUpdateSeller_eq in P.
      apply parse_object_inv in P as (pairs & a & _ & _ & ->).
      rewrite (unrecognized_present _ _ _ _ X).
      apply in_or_app; right; left; reflexivity. }
    rewrite (safeParse_Failure _ _ _ _ P) in H.
    + inversion H; subst. eauto.
    + intros ->. destruct Hin.
Qed.

Lemma review_strips_unknown_keys_witness :
  safeParse VendorUpdateReview
    (VObj [("admin", VBool true); ("seller_note", VStr (lit "Thanks"));
           ("rating", VNum 5)])
  = inr (Success (VObj [("seller_note", VStr (lit "Thanks"))])) /\
  (exists issues,
      safeParse VendorUpdateSeller (VObj [("admin", VBool true)])
      = inr (Failure issues) /\
      In (Issue [] (unrecognized_keys ["admin"])) issues) /\
  (exists issues,
      safeParse VendorCreateSeller
        (VObj [("registration_type", VStr (lit "individual"));
               ("name", VStr (lit "Shop")); ("admin", VBool true);
               ("member", VObj [("name", VStr (lit "Ann"));
                                ("email", VStr (lit "ann@shop.example"))])])
      = inr (Failure issues) /\
      In (Issue [] (unrecognized_keys ["admin"])) issues).
Proof.
  destruct review_strips_unknown_keys as (R & C & U). split; [|split].
  - apply (R _ (lit "Thanks")); [reflexivity | vm_compute; lia].
  - destruct (U [("admin", VBool true)]
                (Failure [Issue [] (unrecognized_keys ["admin"])]))
      as (issues & E & Hin); [discriminate | reflexivity |].
    exists issues. inversion E; subst. split; [reflexivity | exact Hin].
  - destruct (C [("registration_type", VStr (lit "individual"));
                 ("name", VStr (lit "Shop")); ("admin", VBool true);
                 ("member", VObj [("name", VStr (lit "Ann"));
                                  ("email", VStr (lit "ann@shop.example"))])]
                (Failure [Issue [] (unrecognized_keys ["admin"])]))
      as (issues & E & Hin); [discriminate | reflexivity |].
    exists issues. inversion E; subst. split; [reflexivity | exact Hin].
Defined.

(* ================================================================== *)
(** ** Null on create and on update *)

Lemma nodup_create_keys : NoDup (shape_keys VendorCreateSeller_shape).
Proof.
  simpl. repeat (constructor; [simpl; intuition discriminate|]). constructor.
Qed.

Lemma general_field_outcomes k :
  In k general_fields ->
  null_outcome VendorCreateSeller_shape k = Some (Ret (OK VNull) []) /\
  null_outcome VendorUpdateSeller_shape k =
  Some (Ret INVALID [Issue [k] (invalid_type (ExpType TString) TNull)]).
Proof.
  unfold general_fields. simpl.
  intros H. repeat (destruct H as [<-|H]; [split; reflexivity|]). destruct H.
Qed.

Lemma null_outcome_inv sh k m :
  null_outcome sh k = Some m ->
  exists s, shape_get sh k = Some s /\ parse s VNull [k] = m.
Proof.
  unfold null_outcome. destruct (shape_get sh k) as [s|]; [|discriminate].
  intros E. inversion E; subst. eauto.
Qed.

Lemma update_null_rejected o k :
  In k general_fields -> get o k = VNull ->
  safeParse VendorUpdateSeller (VObj o) = inl TypeError \/
  exists issues,
    safeParse VendorUpdateSeller (VObj o) = inr (Failure issues) /\
    In (Issue [k] (invalid_type (ExpType TString) TNull)) issues.
Proof.
  intros Hk Hnull.
  destruct (general_field_outcomes k Hk) as [_ Hu].
  apply null_outcome_inv in Hu as (su & Hget & Hparse).
  assert (Hname : (match get o "name" with
                   | VUndefined | VStr _ => False
                   | _ => True
                   end) \/
                  returns (parse (z.optional (z.preprocess trim_always
                                                (z.min 4 z.string)))
                             (get o "name") ["name"])).
  { destruct (get o "name") as [| | | |s| |]; auto; right; red.
    - simpl. eauto.
    - rewrite update_name_string.
      destruct (List.length (trim s) <? 4)%nat; eauto. }
  destruct Hname as [T|R]; [left; apply update_name_raises, T|right].
  destruct (update_shape_returns o R) as (pairs & a & Hs).
  pose proof (shape_field_issues _ _ _ _ _ Hs) as Hall.
  pose proof (shape_all_in _ _ _ _ Hall (shape_get_in _ _ _ Hget)) as Hin.
  simpl in Hin. rewrite Hnull in Hin. specialize (Hin _ _ Hparse).
  assert (Hp : parse VendorUpdateSeller (VObj o) [] =
               Ret (object_return pairs
                      (unrecognized Strict VendorUpdateSeller_shape o []))
                   (a ++ unrecognized Strict VendorUpdateSeller_shape o [])).
  { rewrite VendorUpdateSeller_eq, parse_object, Hs. reflexivity. }
  eexists. split.
  - apply (safeParse_Failure _ _ _ _ Hp). intros E.
    apply app_eq_nil in E as [-> _]. apply (Hin _ (or_introl eq_refl)).
  - apply in_or_app. left. apply Hin. left. reflexivity.
Qed.

Lemma create_null_accepted o k issues i :
  In k general_fields -> get o k = VNull ->
  safeParse VendorCreateSeller (VObj o) = inr (Failure issues) ->
  In i issues -> path i <> [k].
Proof.
  intros Hk Hnull H Hi Hpath.
  destruct (general_field_outcomes k Hk) as [Hc _].
  apply null_outcome_inv in Hc as (sc & Hget & Hparse).
  destruct (parse VendorCreateSeller (VObj o) []) as [e|r added] eqn:P.
  { rewrite (safeParse_Throw _ _ _ P) in H. discriminate. }
  rewrite (safeParse_Ret _ _ _ _ P) in H.
  assert (added = issues) as -> by (destruct r; inversion H; reflexivity).
  destruct (parse_create_inv _ _ _ P) as (pairs & a & Hs & Hr).
  assert (Hcases : In i a \/
                   In i (unrecognized Strict VendorCreateSeller_shape o []) \/
                   exists v, In i (business_refinement v)).
  { destruct (object_return pairs _) as [v|v|]; destruct Hr as [_ ->];
      repeat (apply in_app_or in Hi as [Hi|Hi]); eauto. }
  destruct Hcases as [Ha|[Hu|[v Hb]]].
  - destruct (shape_issue_origin _ _ _ _ _ _ Hs Ha)
      as (k' & s' & r' & a' & Hin & Hp & Hia).
    destruct (field_issue_path _ _ _ _ _ _ _ Hp Hia) as [q E].
    rewrite Hpath in E. simpl in E. inversion E; subst k' q.
    rewrite (shape_in_get _ _ _ nodup_create_keys Hin) in Hget.
    inversion Hget; subst s'. simpl in Hp. rewrite Hnull, Hparse in Hp.
    inversion Hp; subst. destruct Hia.
  - unfold unrecognized in Hu.
    destruct (extra_keys Strict VendorCreateSeller_shape o); [destruct Hu|].
    destruct Hu as [<-|[]]. discriminate.
  - apply business_refinement_paths in Hb. rewrite Hpath in Hb.
    unfold general_fields in Hk. simpl in Hk, Hb.
    repeat (destruct Hk as [<-|Hk]; [intuition discriminate|]). destruct Hk.
Qed.

(** C10: a present [null] in one of the ten general fields (description,
    photo, email, phone, address_line, city, state, postal_code,
    country_code, tax_id).  The create rule of the field returns it
    without an issue, and no issue of a create failure is at that field;
    the update rule of the field aborts with an invalid-type issue
    (string expected, null received) at the field, so an update run on
    such a record either raises in the [name] callback or fails with that
    issue.  Among the fields of the update schema exactly company_name,
    vat_number and tax_office accept [null]. *)
Theorem null_accepted_on_create_only :
  (forall k,
      In k general_fields ->
      null_outcome VendorCreateSeller_shape k = Some (Ret (OK VNull) []) /\
      null_outcome VendorUpdateSeller_shape k =
      Some (Ret INVALID [Issue [k] (invalid_type (ExpType TString) TNull)]) /\
      kind_of (invalid_type (ExpType TString) TNull) = UnexpectedNull) /\
  (forall o k issues i,
      In k general_fields -> get o k = VNull ->
      safeParse VendorCreateSeller (VObj o) = inr (Failure issues) ->
      In i issues -> path i <> [k]) /\
  (forall o k,
      In k general_fields -> get o k = VNull ->
      safeParse VendorUpdateSeller (VObj o) = inl TypeError \/
      exists issues,
        safeParse VendorUpdateSeller (VObj o) = inr (Failure issues) /\
        In (Issue [k] (invalid_type (ExpType TString) TNull)) issues) /\
  filter (accepts_null VendorUpdateSeller_shape)
         (shape_keys VendorUpdateSeller_shape) = business_fields.
Proof.
  split; [|split; [|split]].
  - intros k Hk. destruct (general_field_outcomes k Hk). auto.
  - exact create_null_accepted.
  - exact update_null_rejected.
  - reflexivity.
Qed.

Lemma null_accepted_on_create_only_witness :
  null_outcome VendorCreateSeller_shape "city" = Some (Ret (OK VNull) []) /\
  path (Issue ["name"] (too_small 1)) <> ["city"] /\
  (exists issues,
      safeParse VendorUpdateSeller (VObj [("city", VNull)])
      = inr (Failure issues) /\
      In (Issue ["city"] (invalid_type (ExpType TString) TNull)) issues).
Proof.
  destruct null_accepted_on_create_only as (F & C & U & _).
  assert (G : In "city" general_fields) by (unfold general_fields; simpl; tauto).
  split; [exact (proj1 (F "city" G))|]. split.
  - apply (C [("registration_type", VStr (lit "individual"));
              ("name", VStr []); ("city", VNull); ("member", ann)]
             "city" [Issue ["name"] (too_small 1)]).
    + exact G.
    + reflexivity.
    + vm_compute. reflexivity.
    + left. reflexivity.
  - destruct (U [("city", VNull)] "city" G) as [E|H].
    + reflexivity.
    + discriminate.
    + exact H.
Defined.

(* ================================================================== *)
(** ** The normalized record *)

Lemma parse_normalizes :
  (forall s v p r a, parse s v p = Ret r a -> carries r (normalize s v)) /\
  (forall sh o p pairs a,
      parse_shape sh o p = Ret pairs a ->
      forall d final, mergeObjectSync pairs = Some (d, final) ->
                      final = normalize_shape sh o).
Proof.
  apply schema_mutind; unfold carries.
  - intros checks v p r a H. destruct v; simpl in H; inversion H; subst; auto.
    destruct (flat_map _ checks); auto.
  - intros values v p r a H. destruct v; simpl in H; inversion H; subst; auto.
    destruct (existsb _ values); inversion H1; auto.
  - intros inner IH v p r a H.
    destruct v; simpl in H; try (exact (IH _ _ _ _ H)).
    inversion H; subst. auto.
  - intros inner IH v p r a H.
    destruct v; simpl in H; try (exact (IH _ _ _ _ H)).
    inversion H; subst. auto.
  - intros f inner IH v p r a H. simpl in H. simpl.
    destruct (f v); [discriminate|]. exact (IH _ _ _ _ H).
  - intros fields IH policy v p r a H.
    destruct v; try (simpl in H; inversion H; subst; auto; fail).
    apply parse_object_inv in H as (pairs & a' & Hs & -> & ->).
    unfold object_return. simpl.
    destruct (mergeObjectSync pairs) as [[d final]|] eqn:M; auto.
    rewrite (IH _ _ _ _ Hs _ _ M).
    destruct (unrecognized policy fields fields0 p); destruct d; auto.
  - intros inner IH refinement v p r a H.
    rewrite parse_superRefine in H.
    apply bind_Ret_inv in H as (r1 & is1 & is2 & Hi & H & ->).
    apply IH in Hi. simpl.
    destruct Hi as [->|[->| ->]]; simpl in H; inversion H; subst; auto.
    destruct (refinement _); auto.
  - intros o p pairs a H d final M. inversion H; subst. simpl in M.
    inversion M; subst. reflexivity.
  - intros k s IHs rest IHr o p pairs a H d final M.
    apply parse_shape_cons_inv in H as (r & is1 & rs & is2 & Hr & Hrs & -> & ->).
    apply IHs in Hr. simpl in M. simpl.
    destruct (mergeObjectSync rs) as [[d' o']|] eqn:M'.
    + rewrite <- (IHr _ _ _ _ Hrs _ _ M').
      destruct Hr as [->|[->| ->]]; simpl in M; inversion M; subst; reflexivity.
    + destruct Hr as [->|[->| ->]]; simpl in M; discriminate.
Qed.

Lemma parse_carries s v p r a :
  parse s v p = Ret r a -> carries r (normalize s v).
Proof. apply parse_normalizes. Qed.

Lemma get_normalize_shape_out sh o k :
  ~ In k (shape_keys sh) -> get (normalize_shape sh o) k = VUndefined.
Proof.
  induction sh as [|k' s rest IH]; simpl; [reflexivity|].
  intros N. destruct (kept k' _ _); simpl.
  - destruct (String.eqb_spec k k') as [->|_]; [tauto|]. apply IH. tauto.
  - apply IH. tauto.
Qed.

Lemma has_key_normalize_shape_out sh o k :
  ~ In k (shape_keys sh) -> has_key (normalize_shape sh o) k = false.
Proof.
  induction sh as [|k' s rest IH]; simpl; [reflexivity|].
  intros N. destruct (kept k' _ _); simpl.
  - destruct (String.eqb_spec k k') as [->|_]; [tauto|]. apply IH. tauto.
  - apply IH. tauto.
Qed.

Lemma kept_false k v b : kept k v b = false -> k <> "__proto__" -> v = VUndefined.
Proof.
  unfold kept. destruct (String.eqb_spec k "__proto__"); [tauto|]. simpl.
  destruct v; simpl; try discriminate. reflexivity.
Qed.

(** Reading a declared field of the normalized record. *)
Lemma get_normalize_shape sh o k s :
  NoDup (shape_keys sh) -> shape_in k s sh -> k <> "__proto__" ->
  get (normalize_shape sh o) k = normalize s (get o k).
Proof.
  induction sh as [|k' s' rest IH]; simpl; [contradiction|].
  intros N H P. apply NoDup_cons_iff in N as [H1 N].
  destruct H as [[-> ->]|H].
  - destruct (kept k' _ _) eqn:K; simpl.
    + rewrite String.eqb_refl. reflexivity.
    + rewrite (kept_false _ _ _ K P). apply get_normalize_shape_out. exact H1.
  - assert (k <> k').
    { intros ->. apply H1. eapply shape_in_keys; exact H. }
    destruct (kept k' _ _); simpl.
    + destruct (String.eqb_spec k k'); [tauto|]. apply IH; assumption.
    + apply IH; assumption.
Qed.

Lemma has_key_normalize_shape sh o k s :
  NoDup (shape_keys sh) -> shape_in k s sh ->
  has_key (normalize_shape sh o) k =
  kept k (normalize s (get o k)) (has_key o k).
Proof.
  induction sh as [|k' s' rest IH]; simpl; [contradiction|].
  intros N H. apply NoDup_cons_iff in N as [H1 N].
  destruct H as [[-> ->]|H].
  - destruct (kept k' _ _) eqn:K; simpl.
    + rewrite String.eqb_refl. reflexivity.
    + apply has_key_normalize_shape_out. exact H1.
  - assert (k <> k').
    { intros ->. apply H1. eapply shape_in_keys; exact H. }
    destruct (kept k' _ _); simpl.
    + destruct (String.eqb_spec k k'); [tauto|]. apply IH; assumption.
    + apply IH; assumption.
Qed.

Lemma keys_normalize_shape sh o k :
  In k (keys (normalize_shape sh o)) -> In k (shape_keys sh).
Proof.
  induction sh as [|k' s rest IH]; simpl; [tauto|].
  destruct (kept k' _ _); simpl; intuition.
Qed.

(* ================================================================== *)
(** ** The create schema as a whole *)

(** [safeParse] is decided by the issue list. *)
Lemma safeParse_issues s v r a :
  parse s v [] = Ret r a ->
  safeParse s v = inr (match a with
                       | [] => Success (normalize s v)
                       | _ => Failure a
                       end).
Proof.
  intros H. rewrite (safeParse_Ret _ _ _ _ H).
  destruct (parse_agrees _ _ _ _ _ H) as [A B].
  destruct (parse_carries _ _ _ _ _ H) as [->|[->| ->]].
  - rewrite B; [reflexivity | red; eauto].
  - destruct a; [destruct (A eq_refl); discriminate | reflexivity].
  - destruct a; [destruct (A eq_refl); discriminate | reflexivity].
Qed.

Lemma mergeObjectSync_aborted pairs :
  mergeObjectSync pairs = None <-> aborted pairs = true.
Proof.
  induction pairs as [|p rest IH]; simpl; [split; discriminate|].
  destruct (p_value p); simpl; try tauto;
    destruct (mergeObjectSync rest) as [[d o]|]; simpl;
    (split; [intros E; try discriminate; apply IH; reflexivity
            | intros E; apply IH in E; try discriminate; reflexivity]).
Qed.

Lemma create_refinement_input o :
  business_refinement (VObj (normalize_shape VendorCreateSeller_shape o)) =
  business_refinement (VObj o).
Proof.
  assert (G : forall k s,
             shape_in k s VendorCreateSeller_shape -> k <> "__proto__" ->
             (forall v, normalize s v = v) ->
             get (normalize_shape VendorCreateSeller_shape o) k = get o k).
  { intros k s Hin P Hn.
    rewrite (get_normalize_shape _ _ _ _ nodup_create_keys Hin P). apply Hn. }
  unfold business_refinement.
  rewrite (G "registration_type" (z.enum registration_types));
    [|simpl; tauto|discriminate|reflexivity].
  rewrite (G "company_name" (z.nullable (z.optional z.string)));
    [|simpl; tauto|discriminate|intros []; reflexivity].
  rewrite (G "vat_number" (z.nullable (z.optional z.string)));
    [|simpl; tauto|discriminate|intros []; reflexivity].
  rewrite (G "tax_office" (z.nullable (z.optional z.string)));
    [|simpl; tauto|discriminate|intros []; reflexivity].
  reflexivity.
Qed.

Lemma normalize_refined_object fields policy refinement o :
  normalize (ZSuperRefine (ZObject fields policy) refinement) (VObj o) =
  VObj (normalize_shape fields o).
Proof. reflexivity. Qed.

Lemma safeParse_create_issues o r a :
  parse VendorCreateSeller (VObj o) [] = Ret r a ->
  safeParse VendorCreateSeller (VObj o) =
  inr (match a with
       | [] => Success (VObj (normalize_shape VendorCreateSeller_shape o))
       | issues => Failure issues
       end).
Proof.
  intros H. rewrite (safeParse_issues _ _ _ _ H).
  destruct a; [|reflexivity]. do 2 apply f_equal.
  rewrite VendorCreateSeller_eq. apply normalize_refined_object.
Qed.

Lemma parse_create_issues o pairs a :
  parse_shape VendorCreateSeller_shape o [] = Ret pairs a ->
  exists r,
    parse VendorCreateSeller (VObj o) [] =
    Ret r (a ++ unrecognized Strict VendorCreateSeller_shape o []
             ++ (if aborted pairs then []
                 else business_refinement (VObj o))).
Proof.
  intros Hs. pose proof (parse_create_run _ _ _ Hs) as Hp.
  unfold object_return in Hp.
  destruct (mergeObjectSync pairs) as [[d final]|] eqn:M.
  - assert (aborted pairs = false) as ->.
    { destruct (aborted pairs) eqn:A; [|reflexivity].
      apply mergeObjectSync_aborted in A. congruence. }
    destruct parse_normalizes as [_ N].
    rewrite (N _ _ _ _ _ Hs _ _ M) in Hp. clear N M.
    rewrite <- (create_refinement_input o).
    destruct (unrecognized Strict VendorCreateSeller_shape o []); destruct d;
      eexists; exact Hp.
  - apply mergeObjectSync_aborted in M. rewrite M, app_nil_r.
    eexists; exact Hp.
Qed.

(** The result of the create schema from its per-field pass. *)
Lemma create_result o pairs a :
  parse_shape VendorCreateSeller_shape o [] = Ret pairs a ->
  safeParse VendorCreateSeller (VObj o) =
  inr (match a ++ unrecognized Strict VendorCreateSeller_shape o []
               ++ (if aborted pairs then [] else business_refinement (VObj o))
       with
       | [] => Success (VObj (normalize_shape VendorCreateSeller_shape o))
       | issues => Failure issues
       end).
Proof.
  intros Hs. destruct (parse_create_issues _ _ _ Hs) as [r Hp].
  rewrite (safeParse_create_issues _ _ _ Hp).
  destruct (a ++ _ ++ _); reflexivity.
Qed.

(* ------------------------------------------------------------------ *)
(** *** Records that satisfy the field rules *)

Lemma parse_shape_clean sh o p :
  shape_all (fun k s => exists v,
                 parse s (get o k) (p ++ [k]) = Ret (OK v) []) sh ->
  exists pairs, parse_shape sh o p = Ret pairs [] /\ aborted pairs = false.
Proof.
  induction sh as [|k s rest IH]; intros H; simpl in H.
  - exists []. auto.
  - destruct H as [[v Hv] Hrest]. destruct (IH Hrest) as (rs & Hrs & A).
    exists (Pair k (OK v) (has_key o k) :: rs).
    rewrite (parse_shape_cons_Ret _ _ _ _ _ _ _ _ _ Hv Hrs). simpl. auto.
Qed.

Lemma optional_nullable_string_ok v p :
  optional_nullable_string v = true ->
  parse (z.optional (z.nullish z.string)) v p = Ret (OK v) [] /\
  parse (z.nullable (z.optional z.string)) v p = Ret (OK v) [].
Proof. destruct v; simpl; try discriminate; auto. Qed.

Lemma optional_nullable_email_ok v p :
  optional_nullable_email v = true ->
  parse (z.nullish (z.email z.string)) v p = Ret (OK v) [].
Proof.
  destruct v; simpl; try discriminate; auto. intros ->. reflexivity.
Qed.

Lemma one_of_ok options v p :
  one_of options v = true -> parse (z.enum options) v p = Ret (OK v) [].
Proof.
  destruct v; simpl; try discriminate. intros ->. reflexivity.
Qed.

Lemma trimmed_at_least_ok v p :
  trimmed_at_least 1 v = true ->
  exists w,
    parse (z.preprocess trim_if_present (z.min 1 z.string)) v p = Ret (OK w) [].
Proof.
  destruct v; try discriminate. unfold trimmed_at_least. intros H.
  apply Nat.leb_le in H. rewrite create_name_string.
  destruct (List.length (trim s) <? 1)%nat eqn:E.
  - apply Nat.ltb_lt in E. lia.
  - eauto.
Qed.

Lemma member_rules_ok v p :
  member_rules v = true ->
  exists w, parse (z.object member_shape) v p = Ret (OK w) [].
Proof.
  destruct v as [| | | | | |m]; try discriminate. unfold member_rules.
  intros H.
  apply andb_prop in H as [H Hphoto]. apply andb_prop in H as [H Hphone].
  apply andb_prop in H as [H Hbio]. apply andb_prop in H as [Hname Hemail].
  destruct (parse_shape_clean member_shape m p) as (pairs & Hs & A).
  { unfold member_shape. cbn [shape_all]. repeat split.
    - exists (get m "name"). destruct (get m "name"); try discriminate.
      reflexivity.
    - exists (get m "email"). destruct (get m "email"); try discriminate.
      simpl in *. rewrite Hemail. reflexivity.
    - exists (get m "bio"). apply optional_nullable_string_ok. assumption.
    - exists (get m "phone"). apply optional_nullable_string_ok. assumption.
    - exists (get m "photo"). apply optional_nullable_string_ok. assumption. }
  change (parse (z.object member_shape) (VObj m) p)
    with (parse (ZObject member_shape Strip) (VObj m) p).
  rewrite parse_object, Hs. simpl. unfold object_return.
  destruct (mergeObjectSync pairs) as [[d final]|] eqn:M.
  - destruct status_agrees as [_ Q].
    destruct (Q _ _ _ _ _ Hs) as [Q1 _]. destruct (Q1 eq_refl) as [f E].
    rewrite M in E. inversion E; subst. simpl. eauto.
  - apply mergeObjectSync_aborted in M. congruence.
Qed.

Lemma create_rules_pass o :
  satisfies_create_rules o = true ->
  exists pairs,
    parse_shape VendorCreateSeller_shape o [] = Ret pairs [] /\
    aborted pairs = false.
Proof.
  intros H. unfold satisfies_create_rules in H.
  repeat (apply andb_prop in H as [H ?]).
  apply parse_shape_clean. unfold VendorCreateSeller_shape.
  cbn [shape_all]. repeat split;
    try (eexists; apply optional_nullable_string_ok; assumption).
  - eexists. apply one_of_ok. assumption.
  - apply trimmed_at_least_ok. assumption.
  - eexists. apply optional_nullable_email_ok. assumption.
  - apply member_rules_ok. assumption.
Qed.

(** The result on a record that satisfies the field rules. *)
Lemma create_rules_result o :
  satisfies_create_rules o = true ->
  safeParse VendorCreateSeller (VObj o) =
  inr (match unrecognized Strict VendorCreateSeller_shape o []
               ++ business_refinement (VObj o)
       with
       | [] => Success (VObj (normalize_shape VendorCreateSeller_shape o))
       | issues => Failure issues
       end).
Proof.
  intros H. destruct (create_rules_pass o H) as (pairs & Hs & A).
  rewrite (create_result _ _ _ Hs), A. reflexivity.
Qed.

(* ================================================================== *)
(** ** The business rule *)

Lemma business_refinement_business o :
  get o "registration_type" = VStr (lit "business") ->
  business_refinement (VObj o) =
  (if falsy (get o "company_name") then [business_issue "company_name"] else [])
  ++ (if falsy (get o "vat_number") then [business_issue "vat_number"] else [])
  ++ (if falsy (get o "tax_office") then [business_issue "tax_office"] else []).
Proof. intros H. unfold business_refinement. rewrite H. reflexivity. Qed.

Lemma business_refinement_other o :
  get o "registration_type" <> VStr (lit "business") ->
  business_refinement (VObj o) = [].
Proof.
  intros H. unfold business_refinement.
  destruct (get o "registration_type"); try reflexivity.
  unfold jsstring_eqb. destruct (list_eq_dec N.eq_dec s (lit "business"));
    [subst; tauto | reflexivity].
Qed.

Lemma not_provided_falsy v : not_provided v -> falsy v = true.
Proof. intros [->|[->| ->]]; reflexivity. Qed.

Lemma filter_conditional_unrecognized policy fields o p :
  filter is_conditional (unrecognized policy fields o p) = [] /\
  forall i, In i (unrecognized policy fields o p) -> path i = p.
Proof.
  unfold unrecognized. destruct (extra_keys policy fields o); simpl.
  - split; [reflexivity | contradiction].
  - split; [reflexivity|]. intros i [<-|[]]. reflexivity.
Qed.

(** C4: a business registration with company_name, vat_number and
    tax_office all absent, every declared field satisfying its rule.
    The result is a failure whose issues are the unrecognized-keys issue
    (only when the record has undeclared keys; its path is empty) followed
    by exactly three conditional issues, at company_name, vat_number and
    tax_office in this order.  All three dependents are reported, and
    no issue is at the path of any other field. *)
Theorem business_without_details_three_issues (o : obj) :
  satisfies_create_rules o = true ->
  get o "registration_type" = VStr (lit "business") ->
  get o "company_name" = VUndefined ->
  get o "vat_number" = VUndefined ->
  get o "tax_office" = VUndefined ->
  exists issues,
    safeParse VendorCreateSeller (VObj o) = inr (Failure issues) /\
    issues = unrecognized Strict VendorCreateSeller_shape o []
               ++ map business_issue business_fields /\
    filter is_conditional issues = map business_issue business_fields /\
    map path (filter is_conditional issues) =
      [["company_name"]; ["vat_number"]; ["tax_office"]] /\
    (forall i, In i issues -> path i <> [] ->
               In i (map business_issue business_fields)).
Proof.
  intros V R C1 C2 C3.
  rewrite (create_rules_result o V), (business_refinement_business o R).
  rewrite C1, C2, C3. simpl falsy. cbv iota.
  destruct (filter_conditional_unrecognized Strict VendorCreateSeller_shape o [])
    as [F P].
  change ([business_issue "company_name"] ++ [business_issue "vat_number"]
            ++ [business_issue "tax_office"])
    with (map business_issue business_fields).
  exists (unrecognized Strict VendorCreateSeller_shape o []
            ++ map business_issue business_fields).
  split; [|split; [reflexivity|split; [|split]]].
  - destruct (unrecognized Strict VendorCreateSeller_shape o []); reflexivity.
  - rewrite filter_app, F. reflexivity.
  - rewrite filter_app, F. reflexivity.
  - intros i Hi Hp. apply in_app_or in Hi as [Hi|Hi]; [|exact Hi].
    destruct Hp. apply P, Hi.
Qed.

Lemma business_without_details_three_issues_witness :
  exists issues,
    safeParse VendorCreateSeller (VObj business_shop) = inr (Failure issues) /\
    issues = [Issue ["company_name"]
                (custom "Company name is required for business registration");
              Issue ["vat_number"]
                (custom "VAT number is required for business registration");
              Issue ["tax_office"]
                (custom "Tax office is required for business registration")].
Proof.
  destruct (business_without_details_three_issues business_shop)
    as (issues & H & E & _); try reflexivity.
  exists issues. split; [exact H | exact E].
Defined.

(** C5: on a business registration whose declared fields satisfy their
    rules, a company_name, vat_number or tax_office that is the empty
    string or [null] is handled like an absent one: the result is a
    failure that holds the conditional issue at that field's path, with
    the message naming the field and the business registration. *)
Theorem empty_or_null_counts_as_missing (o : obj) (k : key) :
  satisfies_create_rules o = true ->
  get o "registration_type" = VStr (lit "business") ->
  In k business_fields ->
  not_provided (get o k) ->
  (exists issues,
      safeParse VendorCreateSeller (VObj o) = inr (Failure issues) /\
      In (business_issue k) issues) /\
  is_conditional (business_issue k) = true /\
  path (business_issue k) = [k] /\
  map business_issue business_fields =
  [Issue ["company_name"]
     (custom "Company name is required for business registration");
   Issue ["vat_number"]
     (custom "VAT number is required for business registration");
   Issue ["tax_office"]
     (custom "Tax office is required for business registration")].
Proof.
  intros V R Hk N. split; [|repeat split].
  apply not_provided_falsy in N.
  rewrite (create_rules_result o V), (business_refinement_business o R).
  assert (Hin : In (business_issue k)
            ((if falsy (get o "company_name")
              then [business_issue "company_name"] else [])
             ++ (if falsy (get o "vat_number")
                 then [business_issue "vat_number"] else [])
             ++ (if falsy (get o "tax_office")
                 then [business_issue "tax_office"] else []))).
  { simpl in Hk. destruct Hk as [<-|[<-|[<-|[]]]]; rewrite N.
    - left. reflexivity.
    - apply in_or_app. right. left. reflexivity.
    - apply in_or_app. right. apply in_or_app. right. left. reflexivity. }
  eexists. split.
  - destruct (_ ++ _) eqn:E at 1.
    + apply app_eq_nil in E as [_ E]. rewrite E in Hin. destruct Hin.
    + rewrite <- E. reflexivity.
  - apply in_or_app. right. exact Hin.
Qed.

Lemma empty_or_null_counts_as_missing_witness :
  exists issues,
    safeParse VendorCreateSeller
      (VObj (("company_name", VStr []) :: ("vat_number", VNull) :: business_shop))
    = inr (Failure issues) /\
    In (business_issue "company_name") issues.
Proof.
  apply (empty_or_null_counts_as_missing
           (("company_name", VStr []) :: ("vat_number", VNull) :: business_shop)
           "company_name").
  - reflexivity.
  - reflexivity.
  - simpl. tauto.
  - right. right. reflexivity.
Defined.

(** C2, as the code has it: a business registration without
    company_name, with [a] the issues of the per-field pass.  When no
    declared field aborts (every value has the type its rule asks for;
    the failures are length or format issues, or undeclared keys), the
    business rule runs: the failure holds the per-field issues, then the
    unrecognized-keys issue if any, then the issues of the rule, among
    them the one at company_name.  When a field aborts, the rule is not
    run: the failure holds the per-field issues and the unrecognized-keys
    issue only. *)
Theorem business_rule_runs_unless_aborted (o : obj) pairs a :
  parse_shape VendorCreateSeller_shape o [] = Ret pairs a ->
  get o "registration_type" = VStr (lit "business") ->
  get o "company_name" = VUndefined ->
  (aborted pairs = false ->
   exists issues,
     safeParse VendorCreateSeller (VObj o) = inr (Failure issues) /\
     issues = a ++ unrecognized Strict VendorCreateSeller_shape o []
                ++ business_refinement (VObj o) /\
     In (business_issue "company_name") issues) /\
  (aborted pairs = true ->
   safeParse VendorCreateSeller (VObj o) =
   inr (Failure (a ++ unrecognized Strict VendorCreateSeller_shape o []))).
Proof.
  intros Hs R C. split; intros A; rewrite (create_result _ _ _ Hs), A.
  - assert (Hin : In (business_issue "company_name")
                    (business_refinement (VObj o))).
    { rewrite (business_refinement_business o R), C. left. reflexivity. }
    eexists. split; [|split; [reflexivity|]].
    + destruct (a ++ _ ++ _) eqn:E at 1.
      * apply app_eq_nil in E as [_ E]. apply app_eq_nil in E as [_ E].
        rewrite E in Hin. destruct Hin.
      * rewrite <- E. reflexivity.
    + apply in_or_app. right. apply in_or_app. right. exact Hin.
  - rewrite app_nil_r. destruct (a ++ _) eqn:E; [|reflexivity].
    apply app_eq_nil in E as [-> _].
    destruct status_agrees as [_ Q]. destruct (Q _ _ _ _ _ Hs) as [Q1 _].
    destruct (Q1 eq_refl) as [final M].
    apply mergeObjectSync_aborted in A. congruence.
Qed.

Lemma business_rule_runs_unless_aborted_witness :
  (exists issues,
      safeParse VendorCreateSeller (VObj misaddressed_business_shop)
      = inr (Failure issues) /\
      issues = [Issue ["member"; "email"] invalid_string_email;
                business_issue "company_name";
                business_issue "vat_number";
                business_issue "tax_office"]) /\
  safeParse VendorCreateSeller (VObj mistyped_business_shop)
  = inr (Failure
           [Issue ["description"] (invalid_type (ExpType TString) TNumber)]).
Proof.
  split.
  - destruct (business_rule_runs_unless_aborted misaddressed_business_shop
                _ _ eq_refl eq_refl eq_refl) as [H _].
    destruct (H eq_refl) as (issues & H1 & E & _).
    exists issues. split; [exact H1 | exact E].
  - destruct (business_rule_runs_unless_aborted mistyped_business_shop
                _ _ eq_refl eq_refl eq_refl) as [_ H].
    exact (H eq_refl).
Defined.

(** C2, counterexample: registration_type is "business" and passes,
    company_name, vat_number and tax_office are absent and pass, and the
    unrelated field description holds a number.  Its rule aborts, the
    business rule is not run, and the only issue is the one at
    description. *)
Lemma type_error_skips_business_rule :
  field_outcome VendorCreateSeller_shape mistyped_business_shop
    "registration_type" = Some (Ret (OK (VStr (lit "business"))) []) /\
  field_outcome VendorCreateSeller_shape mistyped_business_shop
    "company_name" = Some (Ret (OK VUndefined) []) /\
  field_outcome VendorCreateSeller_shape mistyped_business_shop
    "vat_number" = Some (Ret (OK VUndefined) []) /\
  field_outcome VendorCreateSeller_shape mistyped_business_shop
    "tax_office" = Some (Ret (OK VUndefined) []) /\
  field_outcome VendorCreateSeller_shape mistyped_business_shop
    "description"
    = Some (Ret INVALID
              [Issue ["description"] (invalid_type (ExpType TString) TNumber)]) /\
  safeParse VendorCreateSeller (VObj mistyped_business_shop)
    = inr (Failure
             [Issue ["description"] (invalid_type (ExpType TString) TNumber)]) /\
  ~ (exists issues,
        safeParse VendorCreateSeller (VObj mistyped_business_shop)
        = inr (Failure issues) /\
        In (business_issue "company_name") issues).
Proof.
  repeat split. intros (issues & H & Hin).
  vm_compute in H. inversion H; subst.
  destruct Hin as [E|[]]. discriminate.
Qed.

(* ================================================================== *)
(** ** Parsing the normalized record again *)

Lemma shape_all_intro (P : key -> schema -> Prop) sh :
  (forall k s, shape_in k s sh -> P k s) -> shape_all P sh.
Proof.
  induction sh as [|k s rest IH]; simpl; [trivial|].
  intros H. split; [apply H; auto|]. apply IH. intros k' s' Hin. apply H. auto.
Qed.

Lemma parse_OK_normalize s x v p a :
  parse s x p = Ret (OK v) a -> v = normalize s x.
Proof.
  intros H. destruct (parse_carries _ _ _ _ _ H) as [E|[E|E]];
    inversion E; reflexivity.
Qed.

(** A clean per-field pass: every field returned [OK] with its
    normalized value. *)
Lemma shape_fields_ok sh o p pairs :
  parse_shape sh o p = Ret pairs [] ->
  shape_all (fun k s =>
               parse s (get o k) (p ++ [k]) =
               Ret (OK (normalize s (get o k))) []) sh.
Proof.
  revert pairs. induction sh as [|k s rest IH]; intros pairs H; simpl; [trivial|].
  apply parse_shape_cons_inv in H as (r & is1 & rs & is2 & Hr & Hrs & -> & E).
  symmetry in E. apply app_eq_nil in E as [-> ->]. split; [|eapply IH; exact Hrs].
  destruct (parse_agrees _ _ _ _ _ Hr) as [A _]. destruct (A eq_refl) as [v ->].
  rewrite <- (parse_OK_normalize _ _ _ _ _ Hr). exact Hr.
Qed.

Lemma kept_kept k v b : kept k v (kept k v b) = kept k v b.
Proof.
  unfold kept. destruct (String.eqb k "__proto__"), (is_undefined v), b;
    reflexivity.
Qed.

Lemma normalize_shape_agree sh o o' :
  (forall k s, shape_in k s sh ->
               normalize s (get o' k) = normalize s (get o k) /\
               kept k (normalize s (get o k)) (has_key o' k) =
               kept k (normalize s (get o k)) (has_key o k)) ->
  normalize_shape sh o' = normalize_shape sh o.
Proof.
  induction sh as [|k s rest IH]; simpl; [reflexivity|].
  intros H. destruct (H k s) as [E1 E2]; [auto|].
  rewrite E1, E2, IH; [reflexivity|]. intros k' s' Hin. apply H. auto.
Qed.

Lemma extra_keys_normalize_shape policy sh o :
  extra_keys policy sh (normalize_shape sh o) = [].
Proof.
  destruct policy; simpl; [reflexivity|].
  assert (H : forall k, In k (keys (normalize_shape sh o)) ->
                        mem_key k (shape_keys sh) = true).
  { intros k Hk. apply keys_normalize_shape in Hk. unfold mem_key.
    apply existsb_exists. exists k. split; [exact Hk | apply String.eqb_refl]. }
  induction (keys (normalize_shape sh o)) as [|k ks IH]; simpl; [reflexivity|].
  rewrite (H k); [|left; reflexivity]. simpl. apply IH.
  intros k' Hk'. apply H. right. exact Hk'.
Qed.

Lemma idempotent_identity s : (forall x, normalize s x = x) -> idempotent s.
Proof.
  intros N x v p H. rewrite (parse_OK_normalize _ _ _ _ _ H), N.
  rewrite (parse_OK_normalize _ _ _ _ _ H), N in H. exact H.
Qed.

Lemma idempotent_object sh policy :
  NoDup (shape_keys sh) -> ~ In "__proto__" (shape_keys sh) ->
  shape_all (fun _ s => idempotent s) sh ->
  idempotent (ZObject sh policy).
Proof.
  intros ND NP Hidem x v p H.
  destruct x as [| | | | | |o]; try (simpl in H; discriminate).
  pose proof (parse_OK_normalize _ _ _ _ _ H) as ->. simpl normalize.
  apply parse_object_inv in H as (pairs & a & Hs & _ & E).
  symmetry in E. apply app_eq_nil in E as [-> _].
  pose proof (shape_fields_ok _ _ _ _ Hs) as Hok.
  assert (Hfield : forall k s, shape_in k s sh ->
            get (normalize_shape sh o) k = normalize s (get o k) /\
            parse s (normalize s (get o k)) (p ++ [k]) =
            Ret (OK (normalize s (get o k))) []).
  { intros k s Hin. split.
    - apply get_normalize_shape; [exact ND | exact Hin |].
      intros ->. apply NP. eapply shape_in_keys; exact Hin.
    - apply (shape_all_in _ _ _ _ Hidem Hin) with (x := get o k).
      exact (shape_all_in _ _ _ _ Hok Hin). }
  destruct (parse_shape_clean sh (normalize_shape sh o) p) as (pairs' & Hs' & A).
  { apply shape_all_intro. intros k s Hin. destruct (Hfield k s Hin) as [G P].
    rewrite G. eauto. }
  assert (Hfix : normalize_shape sh (normalize_shape sh o) = normalize_shape sh o).
  { apply normalize_shape_agree. intros k s Hin.
    destruct (Hfield k s Hin) as [G P]. rewrite G. split.
    - symmetry. exact (parse_OK_normalize _ _ _ _ _ P).
    - rewrite (has_key_normalize_shape _ _ _ _ ND Hin). apply kept_kept. }
  rewrite parse_object, Hs'. unfold unrecognized.
  rewrite extra_keys_normalize_shape. simpl. unfold object_return.
  destruct status_agrees as [_ Q]. destruct (Q _ _ _ _ _ Hs') as [Q1 _].
  destruct (Q1 eq_refl) as [final M]. rewrite M.
  destruct parse_normalizes as [_ N]. rewrite (N _ _ _ _ _ Hs' _ _ M), Hfix.
  reflexivity.
Qed.

Lemma idempotent_superRefine inner refinement :
  idempotent inner -> idempotent (ZSuperRefine inner refinement).
Proof.
  intros Hi x v p H. rewrite parse_superRefine in H |- *.
  apply bind_Ret_inv in H as (r & is1 & is2 & H1 & H2 & E).
  symmetry in E. apply app_eq_nil in E as [-> ->].
  destruct r as [w|w|]; simpl in H2; try discriminate.
  destruct (refinement w) eqn:R; simpl in H2; inversion H2; subst.
  rewrite (Hi _ _ _ H1). simpl. rewrite R. reflexivity.
Qed.

Lemma idempotent_create_name :
  idempotent (z.preprocess trim_if_present (z.min 1 z.string)).
Proof.
  intros x v p H. destruct x as [| | | |s| |]; try (simpl in H; discriminate).
  rewrite create_name_string in H.
  destruct (List.length (trim s) <? 1)%nat eqn:L; inversion H; subst.
  rewrite create_name_string, trim_idem, L. reflexivity.
Qed.

Lemma idempotent_create : idempotent VendorCreateSeller.
Proof.
  rewrite VendorCreateSeller_eq.
  apply idempotent_superRefine, idempotent_object.
  - exact nodup_create_keys.
  - simpl. intuition discriminate.
  - simpl. repeat split;
      try (apply idempotent_identity; intros []; reflexivity).
    + exact idempotent_create_name.
    + apply idempotent_object.
      * simpl. repeat (constructor; [simpl; intuition discriminate|]).
        constructor.
      * simpl. intuition discriminate.
      * simpl. repeat split; apply idempotent_identity; intros []; reflexivity.
Qed.

(** C8: validation is idempotent on its own output.  If the create
    schema accepts an input with normalized record [r], it accepts [r]
    and returns [r] again. *)
Theorem create_idempotent_on_output (v r : value) :
  safeParse VendorCreateSeller v = inr (Success r) ->
  safeParse VendorCreateSeller r = inr (Success r).
Proof.
  intros H. apply safeParse_Success_inv in H. apply idempotent_create in H.
  rewrite (safeParse_Ret _ _ _ _ H). reflexivity.
Qed.

Lemma create_idempotent_on_output_witness :
  safeParse VendorCreateSeller (VObj individual_shop)
  = inr (Success (normalize VendorCreateSeller (VObj individual_shop))) /\
  safeParse VendorCreateSeller
    (normalize VendorCreateSeller (VObj individual_shop))
  = inr (Success (normalize VendorCreateSeller (VObj individual_shop))).
Proof.
  split; [vm_compute; reflexivity|].
  apply (create_idempotent_on_output (VObj individual_shop)).
  vm_compute. reflexivity.
Defined.

(* ================================================================== *)
(** ** What a successful create validation returns *)

Lemma no_extra_keys_get sh o k :
  extra_keys Strict sh o = [] -> ~ In k (shape_keys sh) ->
  get o k = VUndefined.
Proof.
  unfold extra_keys, keys. induction o as [|[k' v] rest IH]; simpl;
    [reflexivity|].
  intros E N. destruct (mem_key k' (shape_keys sh)) eqn:M; simpl in E;
    [|discriminate].
  destruct (String.eqb_spec k k') as [->|_]; [|exact (IH E N)].
  destruct N. unfold mem_key in M. apply existsb_exists in M as (x & Hx & Ex).
  apply String.eqb_eq in Ex. subst. exact Hx.
Qed.

Lemma get_normalize_shape_get sh o k s :
  NoDup (shape_keys sh) -> shape_get sh k = Some s -> k <> "__proto__" ->
  get (normalize_shape sh o) k = normalize s (get o k).
Proof.
  intros N G P. apply get_normalize_shape; auto. apply shape_get_in, G.
Qed.

Lemma create_success_inv v r :
  safeParse VendorCreateSeller v = inr (Success r) ->
  exists o pairs,
    v = VObj o /\
    r = VObj (normalize_shape VendorCreateSeller_shape o) /\
    parse_shape VendorCreateSeller_shape o [] = Ret pairs [] /\
    extra_keys Strict VendorCreateSeller_shape o = [].
Proof.
  intros H. apply safeParse_Success_inv in H.
  pose proof (parse_OK_normalize _ _ _ _ _ H) as ->.
  destruct v as [| | | | | |o].
  1-6: rewrite VendorCreateSeller_eq, parse_superRefine in H; simpl in H;
    discriminate.
  destruct (parse_create_inv _ _ _ H) as (pairs & a & Hs & Hr).
  assert (E : a = [] /\ unrecognized Strict VendorCreateSeller_shape o [] = []).
  { destruct (object_return pairs _); destruct Hr as [_ E]; symmetry in E;
      apply app_eq_nil in E as [-> E];
      try (apply app_eq_nil in E as [-> _]); auto. }
  destruct E as [-> U]. exists o, pairs.
  split; [reflexivity|]. split; [|split].
  - rewrite VendorCreateSeller_eq. apply normalize_refined_object.
  - exact Hs.
  - unfold unrecognized in U.
    destruct (extra_keys Strict VendorCreateSeller_shape o);
      [reflexivity | discriminate].
Qed.

Lemma create_success_name o pairs :
  parse_shape VendorCreateSeller_shape o [] = Ret pairs [] ->
  exists s,
    get o "name" = VStr s /\
    get (normalize_shape VendorCreateSeller_shape o) "name" = VStr (trim s).
Proof.
  intros Hs. pose proof (shape_fields_ok _ _ _ _ Hs) as Hok.
  assert (Hin : shape_in "name"
                  (z.preprocess trim_if_present (z.min 1 z.string))
                  VendorCreateSeller_shape) by (simpl; tauto).
  pose proof (shape_all_in _ _ _ _ Hok Hin) as Hn. cbv beta in Hn.
  rewrite (get_normalize_shape _ _ _ _ nodup_create_keys Hin);
    [|discriminate].
  destruct (get o "name") as [| | | |s| |]; try (simpl in Hn; discriminate).
  exists s. split; reflexivity.
Qed.

Lemma create_success_member o pairs :
  parse_shape VendorCreateSeller_shape o [] = Ret pairs [] ->
  exists m,
    get o "member" = VObj m /\
    get (normalize_shape VendorCreateSeller_shape o) "member" =
      VObj (normalize_shape member_shape m) /\
    forall k, In k (shape_keys member_shape) ->
              get (normalize_shape member_shape m) k = get m k.
Proof.
  intros Hs. pose proof (shape_fields_ok _ _ _ _ Hs) as Hok.
  assert (Hin : shape_in "member" (z.object member_shape)
                  VendorCreateSeller_shape) by (simpl; tauto).
  pose proof (shape_all_in _ _ _ _ Hok Hin) as Hm. cbv beta in Hm.
  rewrite (get_normalize_shape _ _ _ _ nodup_create_keys Hin);
    [|discriminate].
  destruct (get o "member") as [| | | | | |m].
  1-6: simpl in Hm; discriminate.
  exists m. repeat split. intros k Hk.
  assert (ND : NoDup (shape_keys member_shape)).
  { simpl. repeat (constructor; [simpl; intuition discriminate|]). constructor. }
  simpl in Hk.
  repeat (destruct Hk as [<-|Hk];
          [erewrite get_normalize_shape_get;
           [|exact ND|reflexivity|discriminate];
           destruct (get m _); reflexivity|]).
  destruct Hk.
Qed.

Lemma create_success_others o k :
  extra_keys Strict VendorCreateSeller_shape o = [] ->
  k <> "name" -> k <> "member" ->
  get (normalize_shape VendorCreateSeller_shape o) k = get o k.
Proof.
  intros X Nn Nm.
  destruct (in_dec string_dec k (shape_keys VendorCreateSeller_shape))
    as [Hk|Hk].
  - simpl in Hk.
    repeat (destruct Hk as [Hk|Hk];
            [subst k;
             first [ congruence
                   | erewrite get_normalize_shape_get;
                     [|exact nodup_create_keys|reflexivity|discriminate];
                     destruct (get o _); reflexivity ]|]).
    destruct Hk.
  - rewrite (get_normalize_shape_out _ _ _ Hk).
    symmetry. apply (no_extra_keys_get _ _ _ X Hk).
Qed.

(** C3, as the code has it.  A create input without undeclared keys in
    which every declared field satisfies its rule and the registration is
    not a business one succeeds.  In the normalized record of any
    successful create validation [name] is the trimmed input name; every
    other field, at top level and inside [member], is the input value
    unchanged: no other string is trimmed. *)
Theorem create_success_trims_name_only :
  (forall o,
      satisfies_create_rules o = true ->
      extra_keys Strict VendorCreateSeller_shape o = [] ->
      get o "registration_type" <> VStr (lit "business") ->
      safeParse VendorCreateSeller (VObj o) =
      inr (Success (VObj (normalize_shape VendorCreateSeller_shape o)))) /\
  (forall v r,
      safeParse VendorCreateSeller v = inr (Success r) ->
      exists o final s m m',
        v = VObj o /\ r = VObj final /\
        get o "name" = VStr s /\
        get final "name" = VStr (trim s) /\
        is_trimmed (trim s) = true /\
        (forall k, k <> "name" -> k <> "member" -> get final k = get o k) /\
        get o "member" = VObj m /\
        get final "member" = VObj m' /\
        (forall k, In k (shape_keys member_shape) -> get m' k = get m k)).
Proof.
  split.
  - intros o V X R. rewrite (create_rules_result o V).
    unfold unrecognized. rewrite X, (business_refinement_other o R).
    reflexivity.
  - intros v r H.
    destruct (create_success_inv v r H) as (o & pairs & -> & -> & Hs & X).
    destruct (create_success_name o pairs Hs) as (s & Hn & Hn').
    destruct (create_success_member o pairs Hs) as (m & Hm & Hm' & Hk).
    exists o, (normalize_shape VendorCreateSeller_shape o), s, m,
      (normalize_shape member_shape m).
    repeat split; auto.
    + apply trim_is_trimmed.
    + intros k N1 N2. apply create_success_others; assumption.
Qed.

Lemma create_success_trims_name_only_witness :
  safeParse VendorCreateSeller (VObj individual_shop) =
  inr (Success (VObj (normalize_shape VendorCreateSeller_shape individual_shop)))
  /\
  exists final,
    normalize VendorCreateSeller (VObj individual_shop) = VObj final /\
    get final "name" = VStr (lit "Shop") /\
    get final "description" = VStr (lit " x ").
Proof.
  destruct create_success_trims_name_only as [A B]. split.
  - apply A; [vm_compute; reflexivity | reflexivity | discriminate].
  - destruct (B (VObj individual_shop)
                (normalize VendorCreateSeller (VObj individual_shop)))
      as (o & final & s & m & m' & Ev & Er & Hn & Hn' & _ & Hk & _).
    + vm_compute. reflexivity.
    + exists final. inversion Ev; subst o. split; [exact Er|]. split.
      * rewrite Hn'. inversion Hn; subst s. vm_compute. reflexivity.
      * rewrite Hk; [reflexivity | discriminate | discriminate].
Defined.

(** C3, counterexample: every declared field of the record satisfies its
    rule, the registration is individual, and the validation succeeds;
    the description of the normalized record still has its surrounding
    blanks. *)
Lemma create_success_keeps_description_blanks :
  satisfies_create_rules individual_shop = true /\
  get individual_shop "registration_type" = VStr (lit "individual") /\
  exists final,
    safeParse VendorCreateSeller (VObj individual_shop)
    = inr (Success (VObj final)) /\
    get final "description" = VStr (lit " x ") /\
    is_trimmed (lit " x ") = false.
Proof.
  split; [vm_compute; reflexivity|]. split; [reflexivity|].
  exists (normalize_shape VendorCreateSeller_shape individual_shop).
  split; [vm_compute; reflexivity|]. split; vm_compute; reflexivity.
Qed.

(* ================================================================== *)
(** ** When the validators raise, and what they answer to a non-object *)

Lemma create_returns (o : obj) :
  no_trim_method (get o "name") = false ->
  exists res, safeParse VendorCreateSeller (VObj o) = inr res.
Proof.
  intros H. destruct (create_shape_returns o) as (pairs & a & Hs).
  { red. destruct (get o "name") as [| | | |s| |]; try discriminate.
    - simpl. eauto.
    - simpl. eauto.
    - rewrite create_name_string.
      destruct (List.length (trim s) <? 1)%nat; eauto. }
  destruct (parse_create_issues _ _ _ Hs) as [r Hp].
  rewrite (safeParse_Ret _ _ _ _ Hp). eauto.
Qed.

Lemma update_parse o pairs a :
  parse_shape VendorUpdateSeller_shape o [] = Ret pairs a ->
  parse VendorUpdateSeller (VObj o) [] =
  Ret (object_return pairs (unrecognized Strict VendorUpdateSeller_shape o []))
      (a ++ unrecognized Strict VendorUpdateSeller_shape o []).
Proof.
  intros Hs. rewrite VendorUpdateSeller_eq, parse_object, Hs. reflexivity.
Qed.

Lemma update_returns (o : obj) :
  no_trim_method (get o "name") || is_null (get o "name") = false ->
  exists res, safeParse VendorUpdateSeller (VObj o) = inr res.
Proof.
  intros H. destruct (update_shape_returns o) as (pairs & a & Hs).
  { red. destruct (get o "name") as [| | | |s| |]; try discriminate.
    - simpl. eauto.
    - rewrite update_name_string.
      destruct (List.length (trim s) <? 4)%nat; eauto. }
  rewrite (safeParse_Ret _ _ _ _ (update_parse _ _ _ Hs)). eauto.
Qed.

Lemma safeParse_not_object fields policy v :
  is_object v = false ->
  safeParse (ZObject fields policy) v = inr (not_an_object v) /\
  forall refinement,
    safeParse (ZSuperRefine (ZObject fields policy) refinement) v =
    inr (not_an_object v).
Proof.
  intros H. destruct v; try discriminate; split; reflexivity.
Qed.

(** X1: the create validator raises exactly on an object whose [name] is
    present, not [null] and not a string; what it raises is the
    [TypeError] of the [trim] call. *)
Theorem create_raises_exactly (v : value) (e : exn) :
  safeParse VendorCreateSeller v = inl e <->
  e = TypeError /\
  exists o, v = VObj o /\ no_trim_method (get o "name") = true.
Proof.
  split.
  - intros H. destruct (is_object v) eqn:O.
    + destruct v as [| | | | | |o]; try discriminate.
      destruct (no_trim_method (get o "name")) eqn:N.
      * rewrite create_name_raises in H.
        -- inversion H. eauto.
        -- destruct (get o "name"); try discriminate; exact I.
      * destruct (create_returns o N) as [res R]. congruence.
    + rewrite VendorCreateSeller_eq in H.
      rewrite (proj2 (safeParse_not_object _ _ _ O)) in H. discriminate.
  - intros (-> & o & -> & N). apply create_name_raises.
    destruct (get o "name"); try discriminate; exact I.
Qed.

Lemma create_raises_exactly_witness :
  safeParse VendorCreateSeller
    (VObj [("name", VArr [VStr (lit "Shop")])]) = inl TypeError.
Proof.
  apply create_raises_exactly. split; [reflexivity|].
  eexists. split; reflexivity.
Defined.

(** X2: the update validator raises exactly on an object whose [name] is
    present and not a string, [null] included: its callback has no guard
    and only an absent [name] is answered before the callback runs. *)
Theorem update_raises_exactly (v : value) (e : exn) :
  safeParse VendorUpdateSeller v = inl e <->
  e = TypeError /\
  exists o, v = VObj o /\
            no_trim_method (get o "name") || is_null (get o "name") = true.
Proof.
  split.
  - intros H. destruct (is_object v) eqn:O.
    + destruct v as [| | | | | |o]; try discriminate.
      destruct (no_trim_method (get o "name") || is_null (get o "name")) eqn:N.
      * rewrite update_name_raises in H.
        -- inversion H. eauto.
        -- destruct (get o "name"); try discriminate; exact I.
      * destruct (update_returns o N) as [res R]. congruence.
    + rewrite VendorUpdateSeller_eq in H.
      rewrite (proj1 (safeParse_not_object _ _ _ O)) in H. discriminate.
  - intros (-> & o & -> & N). apply update_name_raises.
    destruct (get o "name"); try discriminate; exact I.
Qed.

Lemma update_raises_exactly_witness :
  safeParse VendorUpdateSeller (VObj [("name", VNull)]) = inl TypeError.
Proof.
  apply update_raises_exactly. split; [reflexivity|].
  eexists. split; reflexivity.
Defined.

(** X3: a request body that is not an object ([null], a string, a number, an
    array, ...) is answered by each of the three validators with one
    invalid-type issue at the root path, telling the type received; no
    field rule and no callback runs. *)
Theorem non_object_rejected_at_root (v : value) :
  is_object v = false ->
  safeParse VendorCreateSeller v = inr (not_an_object v) /\
  safeParse VendorUpdateSeller v = inr (not_an_object v) /\
  safeParse VendorUpdateReview v = inr (not_an_object v).
Proof.
  intros O. repeat split.
  - rewrite VendorCreateSeller_eq. apply safeParse_not_object, O.
  - rewrite VendorUpdateSeller_eq. apply safeParse_not_object, O.
  - apply (safeParse_not_object _ Strip), O.
Qed.

Lemma non_object_rejected_at_root_witness :
  safeParse VendorCreateSeller (VArr [VObj business_shop]) =
  inr (Failure [Issue [] (invalid_type (ExpType TObject) TArray)]).
Proof.
  apply (non_object_rejected_at_root (VArr [VObj business_shop])). reflexivity.
Defined.

(** X4: the review validator never raises, and its answer is decided by
    [seller_note] alone: a string of at most 300 code units is returned
    as the whole normalized record, a longer one gives one length issue,
    and anything else (an absent key, [null], a number, ...) gives one
    invalid-type issue at [seller_note] telling the type received. *)
Theorem review_answer (o : obj) :
  safeParse VendorUpdateReview (VObj o) =
  inr match get o "seller_note" with
      | VStr s =>
          if (List.length s <=? 300)%nat
          then Success (VObj [("seller_note", VStr s)])
          else Failure [Issue ["seller_note"] (too_big 300)]
      | w =>
          Failure [Issue ["seller_note"]
                     (invalid_type (ExpType TString) (getParsedType w))]
      end.
Proof.
  destruct (get o "seller_note") as [| | | |s| |] eqn:G;
    try (unfold safeParse, VendorUpdateReview; simpl; rewrite G; reflexivity).
  pose proof (review_run o s G) as R.
  rewrite Nat.leb_antisym. destruct (300 <? List.length s)%nat;
    rewrite (safeParse_Ret _ _ _ _ R); reflexivity.
Qed.

(* ================================================================== *)
(** ** The records each seller schema accepts *)

Lemma business_refinement_complete o :
  business_refinement (VObj o) = [] <-> business_complete o = true.
Proof.
  unfold business_refinement, business_complete, one_of.
  destruct (get o "registration_type") as [| | | |t| |];
    try (split; reflexivity).
  simpl existsb. rewrite orb_false_r.
  destruct (jsstring_eqb t (lit "business")); [|split; reflexivity].
  destruct (falsy (get o "company_name")),
           (falsy (get o "vat_number")),
           (falsy (get o "tax_office")); simpl; split;
    try discriminate; reflexivity.
Qed.

Lemma clean_pass_not_aborted sh o p pairs :
  parse_shape sh o p = Ret pairs [] -> aborted pairs = false.
Proof.
  intros Hs. destruct status_agrees as [_ Q].
  destruct (Q _ _ _ _ _ Hs) as [Q1 _]. destruct (Q1 eq_refl) as [final M].
  destruct (aborted pairs) eqn:A; [|reflexivity].
  apply mergeObjectSync_aborted in A. congruence.
Qed.

Lemma one_of_inv options v p w :
  parse (z.enum options) v p = Ret (OK w) [] -> one_of options v = true.
Proof.
  destruct v; simpl; try discriminate.
  destruct (existsb _ options); [reflexivity | discriminate].
Qed.

Lemma required_string_inv v p w :
  parse z.string v p = Ret (OK w) [] -> required_string v = true.
Proof. destruct v; simpl; try discriminate; reflexivity. Qed.

Lemma required_email_inv v p w :
  parse (z.email z.string) v p = Ret (OK w) [] -> required_email v = true.
Proof.
  destruct v; try (simpl; discriminate). unfold required_email.
  destruct (Email.test s) eqn:E; [reflexivity|].
  simpl. rewrite E. discriminate.
Qed.

Lemma optional_nullable_string_inv v p w :
  parse (z.optional (z.nullish z.string)) v p = Ret (OK w) [] \/
  parse (z.nullable (z.optional z.string)) v p = Ret (OK w) [] ->
  optional_nullable_string v = true.
Proof. destruct v; simpl; intros [H|H]; try discriminate; reflexivity. Qed.

Lemma optional_nullable_email_inv v p w :
  parse (z.nullish (z.email z.string)) v p = Ret (OK w) [] ->
  optional_nullable_email v = true.
Proof.
  destruct v; try (simpl; discriminate); try reflexivity.
  unfold optional_nullable_email.
  destruct (Email.test s) eqn:E; [reflexivity|].
  simpl. rewrite E. discriminate.
Qed.

Lemma trimmed_at_least_inv v p w :
  parse (z.preprocess trim_if_present (z.min 1 z.string)) v p = Ret (OK w) [] ->
  trimmed_at_least 1 v = true.
Proof.
  destruct v as [| | | |s| |]; try (simpl; discriminate).
  rewrite create_name_string. unfold trimmed_at_least.
  rewrite Nat.leb_antisym.
  destruct (List.length (trim s) <? 1)%nat; [discriminate | reflexivity].
Qed.

Lemma member_rules_inv v p w :
  parse (z.object member_shape) v p = Ret (OK w) [] -> member_rules v = true.
Proof.
  destruct v as [| | | | | |m]; try (simpl; discriminate).
  change (z.object member_shape) with (ZObject member_shape Strip).
  intros H. apply parse_object_inv in H as (pairs & a & Hs & _ & E).
  symmetry in E. apply app_eq_nil in E as [-> _].
  pose proof (shape_fields_ok _ _ _ _ Hs) as Hok.
  unfold member_shape in Hok. cbn [shape_all] in Hok.
  destruct Hok as (H1 & H2 & H3 & H4 & H5 & _).
  unfold member_rules.
  rewrite (required_string_inv _ _ _ H1), (required_email_inv _ _ _ H2),
    (optional_nullable_string_inv _ _ _ (or_introl H3)),
    (optional_nullable_string_inv _ _ _ (or_introl H4)),
    (optional_nullable_string_inv _ _ _ (or_introl H5)).
  reflexivity.
Qed.

Lemma create_pass_rules o pairs :
  parse_shape VendorCreateSeller_shape o [] = Ret pairs [] ->
  satisfies_create_rules o = true.
Proof.
  intros Hs. pose proof (shape_fields_ok _ _ _ _ Hs) as Hok.
  unfold VendorCreateSeller_shape in Hok. cbn [shape_all] in Hok.
  destruct Hok as (H1 & H2 & H3 & H4 & H5 & H6 & H7 & H8 & H9 & H10 & H11
                   & H12 & H13 & H14 & H15 & H16 & _).
  unfold satisfies_create_rules.
  rewrite (one_of_inv _ _ _ _ H1), (trimmed_at_least_inv _ _ _ H2),
    (optional_nullable_string_inv _ _ _ (or_introl H3)),
    (optional_nullable_string_inv _ _ _ (or_introl H4)),
    (optional_nullable_email_inv _ _ _ H5),
    (optional_nullable_string_inv _ _ _ (or_introl H6)),
    (optional_nullable_string_inv _ _ _ (or_introl H7)),
    (optional_nullable_string_inv _ _ _ (or_introl H8)),
    (optional_nullable_string_inv _ _ _ (or_introl H9)),
    (optional_nullable_string_inv _ _ _ (or_introl H10)),
    (optional_nullable_string_inv _ _ _ (or_introl H11)),
    (optional_nullable_string_inv _ _ _ (or_introl H12)),
    (optional_nullable_string_inv _ _ _ (or_intror H13)),
    (optional_nullable_string_inv _ _ _ (or_intror H14)),
    (optional_nullable_string_inv _ _ _ (or_intror H15)),
    (member_rules_inv _ _ _ H16).
  reflexivity.
Qed.

(** X5: the create schema accepts exactly the records whose declared fields
    all satisfy their rules, that have no undeclared key, and on which
    the business rule has nothing to report; what it returns then is the
    normalized record. *)
Theorem create_accepts_exactly (o : obj) (r : value) :
  safeParse VendorCreateSeller (VObj o) = inr (Success r) <->
  satisfies_create_rules o = true /\
  extra_keys Strict VendorCreateSeller_shape o = [] /\
  business_complete o = true /\
  r = VObj (normalize_shape VendorCreateSeller_shape o).
Proof.
  split.
  - intros H.
    destruct (create_success_inv _ _ H) as (o' & pairs & E & -> & Hs & X).
    inversion E; subst o'. repeat split; auto.
    + exact (create_pass_rules _ _ Hs).
    + apply business_refinement_complete.
      rewrite (create_result _ _ _ Hs), (clean_pass_not_aborted _ _ _ _ Hs) in H.
      unfold unrecognized in H. rewrite X in H. rewrite !app_nil_l in H.
      destruct (business_refinement (VObj o)); [reflexivity | discriminate].
  - intros (V & X & B & ->). rewrite (create_rules_result o V).
    unfold unrecognized. rewrite X.
    rewrite (proj2 (business_refinement_complete o) B). reflexivity.
Qed.

Lemma create_accepts_exactly_witness :
  safeParse VendorCreateSeller (VObj complete_business_shop) =
  inr (Success
         (VObj (normalize_shape VendorCreateSeller_shape complete_business_shop))).
Proof.
  apply create_accepts_exactly.
  split; [vm_compute; reflexivity|]. split; [reflexivity|].
  split; [vm_compute; reflexivity | reflexivity].
Defined.

(* ------------------------------------------------------------------ *)
(** *** Update *)

Lemma normalize_object fields policy o :
  normalize (ZObject fields policy) (VObj o) = VObj (normalize_shape fields o).
Proof. reflexivity. Qed.

Lemma update_result o pairs a :
  parse_shape VendorUpdateSeller_shape o [] = Ret pairs a ->
  safeParse VendorUpdateSeller (VObj o) =
  inr (match a ++ unrecognized Strict VendorUpdateSeller_shape o [] with
       | [] => Success (VObj (normalize_shape VendorUpdateSeller_shape o))
       | issues => Failure issues
       end).
Proof.
  intros Hs. rewrite (safeParse_issues _ _ _ _ (update_parse _ _ _ Hs)).
  destruct (a ++ _); [|reflexivity]. do 2 apply f_equal.
  rewrite VendorUpdateSeller_eq. apply normalize_object.
Qed.

Lemma optional_string_iff v p :
  (exists w, parse (z.optional z.string) v p = Ret (OK w) []) <->
  optional_string v = true.
Proof.
  destruct v; simpl; split; try discriminate; eauto;
    intros [w H]; discriminate.
Qed.

Lemma optional_email_iff v p :
  (exists w, parse (z.optional (z.email z.string)) v p = Ret (OK w) []) <->
  optional_email v = true.
Proof.
  destruct v; try (simpl; split; try discriminate; eauto;
                   intros [w H]; discriminate).
  unfold optional_email. simpl. destruct (Email.test s); simpl; split;
    try discriminate; eauto. intros [w H]; discriminate.
Qed.

Lemma optional_one_of_iff options v p :
  (exists w, parse (z.optional (z.enum options)) v p = Ret (OK w) []) <->
  optional_one_of options v = true.
Proof.
  destruct v; simpl; split; try discriminate; eauto;
    try (intros [w H]; discriminate).
  - intros [w H]. destruct (existsb _ options); [reflexivity | discriminate].
  - intros ->. eauto.
Qed.

Lemma optional_trimmed_at_least_iff v p :
  (exists w, parse (z.optional (z.preprocess trim_always (z.min 4 z.string)))
               v p = Ret (OK w) []) <->
  optional_trimmed_at_least 4 v = true.
Proof.
  destruct v as [| | | |s| |];
    try (simpl; split; try discriminate; eauto; intros [w H]; discriminate).
  rewrite update_name_string. unfold optional_trimmed_at_least, trimmed_at_least.
  rewrite Nat.leb_antisym.
  destruct (List.length (trim s) <? 4)%nat; simpl; split;
    try discriminate; eauto. intros [w H]; discriminate.
Qed.

Lemma nullable_optional_string_iff v p :
  (exists w, parse (z.nullable (z.optional z.string)) v p = Ret (OK w) []) <->
  optional_nullable_string v = true.
Proof.
  split.
  - intros [w H]. eapply optional_nullable_string_inv. right. exact H.
  - intros H. exists v. apply optional_nullable_string_ok, H.
Qed.

Lemma update_rules_iff o :
  shape_all (fun k s => exists w,
                 parse s (get o k) ([] ++ [k]) = Ret (OK w) [])
            VendorUpdateSeller_shape <->
  satisfies_update_rules o = true.
Proof.
  unfold VendorUpdateSeller_shape, satisfies_update_rules. cbn [shape_all].
  rewrite !andb_true_iff.
  rewrite optional_one_of_iff, optional_trimmed_at_least_iff,
    optional_email_iff, !optional_string_iff, !nullable_optional_string_iff.
  tauto.
Qed.

(** X6: the update schema accepts exactly the records whose declared fields
    all satisfy their (optional) rules and that have no undeclared key.
    There is no business rule on update: a business registration without
    company_name, vat_number and tax_office is accepted. *)
Theorem update_accepts_exactly (o : obj) (r : value) :
  safeParse VendorUpdateSeller (VObj o) = inr (Success r) <->
  satisfies_update_rules o = true /\
  extra_keys Strict VendorUpdateSeller_shape o = [] /\
  r = VObj (normalize_shape VendorUpdateSeller_shape o).
Proof.
  split.
  - intros H. destruct (parse_shape VendorUpdateSeller_shape o []) as [e|pairs a]
      eqn:Hs.
    { rewrite (safeParse_Throw _ _ e) in H; [discriminate|].
      rewrite VendorUpdateSeller_eq. apply parse_object_Throw, Hs. }
    rewrite (update_result _ _ _ Hs) in H.
    destruct (a ++ _) eqn:E; [|discriminate].
    apply app_eq_nil in E as [-> U].
    assert (Er : VObj (normalize_shape VendorUpdateSeller_shape o) = r)
      by congruence.
    split; [|split; [|symmetry; exact Er]].
    + apply update_rules_iff. apply shape_all_intro. intros k s Hin.
      pose proof (shape_all_in _ _ _ _ (shape_fields_ok _ _ _ _ Hs) Hin) as F.
      cbv beta in F. eauto.
    + unfold unrecognized in U.
      destruct (extra_keys Strict VendorUpdateSeller_shape o);
        [reflexivity | discriminate].
  - intros (V & X & ->). apply update_rules_iff in V.
    destruct (parse_shape_clean _ _ _ V) as (pairs & Hs & _).
    rewrite (update_result _ _ _ Hs). unfold unrecognized. rewrite X.
    reflexivity.
Qed.

Lemma update_accepts_exactly_witness :
  safeParse VendorUpdateSeller
    (VObj [("registration_type", VStr (lit "business"));
           ("name", VStr (lit "  Shop  "))]) =
  inr (Success (VObj [("registration_type", VStr (lit "business"));
                      ("name", VStr (lit "Shop"))])).
Proof.
  apply update_accepts_exactly. repeat split.
Defined.

(* ================================================================== *)
(** ** How issues are collected *)

Lemma pass_issues sh o p pairs a :
  parse_shape sh o p = Ret pairs a ->
  a = field_issues sh o p /\ aborted pairs = field_aborts sh o p.
Proof.
  revert pairs a. induction sh as [|k s rest IH]; intros pairs a H.
  - inversion H; subst. auto.
  - apply parse_shape_cons_inv in H as (r & is1 & rs & is2 & Hr & Hrs & -> & ->).
    destruct (IH _ _ Hrs) as [-> A]. simpl. rewrite Hr, A.
    destruct r; auto.
Qed.

Lemma create_returned o res :
  safeParse VendorCreateSeller (VObj o) = inr res ->
  exists pairs a, parse_shape VendorCreateSeller_shape o [] = Ret pairs a.
Proof.
  intros H. destruct (parse_shape VendorCreateSeller_shape o []) as [e|pairs a]
    eqn:Hs; [|eauto].
  rewrite (safeParse_Throw _ _ e) in H; [discriminate|].
  rewrite VendorCreateSeller_eq, parse_superRefine.
  rewrite (parse_object_Throw _ _ _ _ e Hs). reflexivity.
Qed.

Lemma update_returned o res :
  safeParse VendorUpdateSeller (VObj o) = inr res ->
  exists pairs a, parse_shape VendorUpdateSeller_shape o [] = Ret pairs a.
Proof.
  intros H. destruct (parse_shape VendorUpdateSeller_shape o []) as [e|pairs a]
    eqn:Hs; [|eauto].
  rewrite (safeParse_Throw _ _ e) in H; [discriminate|].
  rewrite VendorUpdateSeller_eq. apply parse_object_Throw, Hs.
Qed.


(* ------------------------------------------------------------------ *)
(** *** An issue of a field is an issue of the result *)

Lemma create_field_issue o k s r a i res :
  shape_in k s VendorCreateSeller_shape ->
  parse s (get o k) ([] ++ [k]) = Ret r a -> In i a ->
  safeParse VendorCreateSeller (VObj o) = inr res ->
  exists issues, res = Failure issues /\ In i issues.
Proof.
  intros Hin Hp Hi H. destruct (create_returned _ _ H) as (pairs & a0 & Hs).
  pose proof (shape_all_in _ _ _ _ (shape_field_issues _ _ _ _ _ Hs) Hin) as F.
  cbv beta in F. specialize (F _ _ Hp _ Hi).
  rewrite (create_result _ _ _ Hs) in H.
  remember (a0 ++ unrecognized Strict VendorCreateSeller_shape o []
               ++ (if aborted pairs then []
                   else business_refinement (VObj o))) as L eqn:E.
  assert (HL : In i L) by (subst L; apply in_or_app; left; exact F).
  destruct L as [|j L']; [destruct HL|].
  exists (j :: L'). split; [congruence | exact HL].
Qed.

(** The three required fields of the create schema on the 3.23 line. *)
Lemma required_fields_3_23 (o : obj) :
  (is_undefined (get o "name") || is_null (get o "name") = true ->
   exists issues,
     safeParse VendorCreateSeller (VObj o) = inr (Failure issues) /\
     In (Issue ["name"] (invalid_type (ExpType TString) TUndefined)) issues) /\
  (forall res,
      safeParse VendorCreateSeller (VObj o) = inr res ->
      (get o "registration_type" = VUndefined ->
       exists issues,
         res = Failure issues /\
         In (Issue ["registration_type"]
               (invalid_type (ExpOneOf registration_types) TUndefined))
            issues) /\
      (get o "member" = VUndefined ->
       exists issues,
         res = Failure issues /\
         In (Issue ["member"] (invalid_type (ExpType TObject) TUndefined))
            issues)) /\
  kind_of (invalid_type (ExpType TString) TUndefined) = MissingRequiredField.
Proof.
  split; [|split; [|reflexivity]].
  - intros N. destruct (create_returns o) as [res R].
    { destruct (get o "name"); try discriminate; reflexivity. }
    destruct (create_field_issue o "name"
                (z.preprocess trim_if_present (z.min 1 z.string)) INVALID
                [Issue ["name"] (invalid_type (ExpType TString) TUndefined)]
                (Issue ["name"] (invalid_type (ExpType TString) TUndefined))
                res) as (issues & -> & Hi);
      [ simpl; tauto
      | destruct (get o "name"); try discriminate; reflexivity
      | left; reflexivity
      | exact R
      | eauto ].
  - intros res H. split; intros G.
    + apply (create_field_issue o "registration_type"
               (z.enum registration_types) INVALID
               [Issue ["registration_type"]
                  (invalid_type (ExpOneOf registration_types) TUndefined)]);
        [ simpl; tauto | rewrite G; reflexivity | left; reflexivity | exact H ].
    + apply (create_field_issue o "member" (z.object member_shape) INVALID
               [Issue ["member"] (invalid_type (ExpType TObject) TUndefined)]);
        [ simpl; tauto | rewrite G; reflexivity | left; reflexivity | exact H ].
Qed.

(** X9: issues of the nested [member] record are reported under the parent
    key.  Whenever the create validator returns on a record whose
    [member] is an object, a member e-mail that is a string but not an
    e-mail address gives a format issue at [member, email], and a member
    name or e-mail that is absent gives a missing-field issue at
    [member, name] or [member, email]. *)
Theorem member_issues_nested (o m : obj) (res : result) :
  safeParse VendorCreateSeller (VObj o) = inr res ->
  get o "member" = VObj m ->
  (forall s, get m "email" = VStr s -> Email.test s = false ->
             exists issues,
               res = Failure issues /\
               In (Issue ["member"; "email"] invalid_string_email) issues) /\
  (forall k, k = "name" \/ k = "email" -> get m k = VUndefined ->
             exists issues,
               res = Failure issues /\
               In (Issue ["member"; k]
                     (invalid_type (ExpType TString) TUndefined)) issues) /\
  kind_of invalid_string_email = FormatInvalid.
Proof.
  intros H G.
  assert (Hfield : forall k s r a i,
             shape_in k s member_shape ->
             parse s (get m k) (["member"] ++ [k]) = Ret r a -> In i a ->
             exists issues, res = Failure issues /\ In i issues).
  { intros k s r a i Hin Hp Hi.
    destruct (parse_shape_returns member_shape m ["member"] eq_refl)
      as (pairs & a0 & Hs).
    pose proof (shape_all_in _ _ _ _ (shape_field_issues _ _ _ _ _ Hs) Hin) as F.
    cbv beta in F. specialize (F _ _ Hp _ Hi).
    apply (create_field_issue o "member" (z.object member_shape)
             (object_return pairs (unrecognized Strip member_shape m ["member"]))
             (a0 ++ unrecognized Strip member_shape m ["member"]));
      [ simpl; tauto | | apply in_or_app; left; exact F | exact H ].
    rewrite G. change (z.object member_shape) with (ZObject member_shape Strip).
    change ([] ++ ["member"]) with ["member"].
    rewrite parse_object, Hs. reflexivity. }
  split; [|split; [|reflexivity]].
  - intros s E T.
    apply (Hfield "email" (z.email z.string) (DIRTY (VStr s))
             [Issue ["member"; "email"] invalid_string_email]);
      [ simpl; tauto | | left; reflexivity ].
    rewrite E. simpl. rewrite T. reflexivity.
  - intros k [-> | ->] E.
    + apply (Hfield "name" z.string INVALID
               [Issue ["member"; "name"]
                  (invalid_type (ExpType TString) TUndefined)]);
        [ simpl; tauto | rewrite E; reflexivity | left; reflexivity ].
    + apply (Hfield "email" (z.email z.string) INVALID
               [Issue ["member"; "email"]
                  (invalid_type (ExpType TString) TUndefined)]);
        [ simpl; tauto | rewrite E; reflexivity | left; reflexivity ].
Qed.

Lemma member_issues_nested_witness :
  exists issues,
    Failure [Issue ["member"; "name"]
               (invalid_type (ExpType TString) TUndefined);
             Issue ["member"; "email"] invalid_string_email]
    = Failure issues /\
    In (Issue ["member"; "email"] invalid_string_email) issues.
Proof.
  destruct (member_issues_nested
              [("registration_type", VStr (lit "individual"));
               ("name", VStr (lit "Shop"));
               ("member", VObj [("email", VStr (lit "ann at shop"))])]
              [("email", VStr (lit "ann at shop"))]
              (Failure [Issue ["member"; "name"]
                          (invalid_type (ExpType TString) TUndefined);
                        Issue ["member"; "email"] invalid_string_email]))
    as (H & _).
  - vm_compute. reflexivity.
  - reflexivity.
  - apply (H (lit "ann at shop")); vm_compute; reflexivity.
Defined.

(* ------------------------------------------------------------------ *)
(** *** Where conditional issues come from *)

Lemma refinement_free_issues :
  (forall s, refinement_free s = true ->
             forall v p r a, parse s v p = Ret r a ->
                             forall i, In i a -> is_conditional i = false) /\
  (forall sh, shape_refinement_free sh = true ->
              forall o p pairs a, parse_shape sh o p = Ret pairs a ->
                                  forall i, In i a -> is_conditional i = false).
Proof.
  apply schema_mutind.
  - intros checks _ v p r a H i Hi.
    destruct v; simpl in H; inversion H; subst; clear H;
      try (destruct Hi as [<-|[]]; reflexivity).
    apply in_map_iff in Hi as (d & <- & Hd).
    apply in_flat_map in Hd as (c & _ & Hc). unfold check_issue in Hc.
    destruct c; [destruct (_ <? _)%nat | destruct (_ <? _)%nat
                 | destruct (Email.test s)];
      try destruct Hc as [<-|[]]; try destruct Hc; reflexivity.
  - intros values _ v p r a H i Hi.
    destruct v; simpl in H;
      try (inversion H; subst; destruct Hi as [<-|[]]; reflexivity).
    destruct (existsb _ values); inversion H; subst;
      [destruct Hi | destruct Hi as [<-|[]]; reflexivity].
  - intros inner IH F v p r a H i Hi.
    destruct v; simpl in H; try (exact (IH F _ _ _ _ H i Hi)).
    inversion H; subst. destruct Hi.
  - intros inner IH F v p r a H i Hi.
    destruct v; simpl in H; try (exact (IH F _ _ _ _ H i Hi)).
    inversion H; subst. destruct Hi.
  - intros f inner IH F v p r a H i Hi. simpl in H, F.
    destruct (f v); [discriminate|]. exact (IH F _ _ _ _ H i Hi).
  - intros fields IH policy F v p r a H i Hi.
    destruct v;
      try (simpl in H; inversion H; subst; destruct Hi as [<-|[]]; reflexivity).
    apply parse_object_inv in H as (pairs & a' & Hs & _ & ->).
    apply in_app_or in Hi as [Hi|Hi]; [exact (IH F _ _ _ _ Hs i Hi)|].
    unfold unrecognized in Hi. destruct (extra_keys policy fields fields0);
      [destruct Hi | destruct Hi as [<-|[]]; reflexivity].
  - discriminate.
  - intros _ o p pairs a H i Hi. inversion H; subst. destruct Hi.
  - intros k s IHs rest IHr F o p pairs a H i Hi. simpl in F.
    apply andb_prop in F as [Fs Fr].
    apply parse_shape_cons_inv in H as (r & is1 & rs & is2 & Hr & Hrs & -> & ->).
    apply in_app_or in Hi as [Hi|Hi];
      [exact (IHs Fs _ _ _ _ Hr i Hi) | exact (IHr Fr _ _ _ _ Hrs i Hi)].
Qed.

Lemma jsstring_eqb_eq a b : jsstring_eqb a b = true -> a = b.
Proof.
  unfold jsstring_eqb. destruct (list_eq_dec N.eq_dec a b); [auto|discriminate].
Qed.

Lemma business_refinement_in o i :
  In i (business_refinement (VObj o)) ->
  get o "registration_type" = VStr (lit "business") /\
  exists k, In k business_fields /\ i = business_issue k /\
            falsy (get o k) = true.
Proof.
  unfold business_refinement.
  destruct (get o "registration_type") as [| | | |t| |]; try contradiction.
  destruct (jsstring_eqb t (lit "business")) eqn:E; [|contradiction].
  apply jsstring_eqb_eq in E. subst t. intros H. split; [reflexivity|].
  unfold business_fields.
  destruct (falsy (get o "company_name")) eqn:F1;
    destruct (falsy (get o "vat_number")) eqn:F2;
    destruct (falsy (get o "tax_office")) eqn:F3; simpl in H;
    repeat (destruct H as [<-|H];
            [first [ exists "company_name"; simpl; split; [tauto|]; split;
                     [reflexivity | assumption]
                   | exists "vat_number"; simpl; split; [tauto|]; split;
                     [reflexivity | assumption]
                   | exists "tax_office"; simpl; split; [tauto|]; split;
                     [reflexivity | assumption] ]|]);
    destruct H.
Qed.

Lemma unrecognized_not_conditional policy fields o p i :
  In i (unrecognized policy fields o p) -> is_conditional i = false.
Proof.
  unfold unrecognized. destruct (extra_keys policy fields o);
    [contradiction | intros [<-|[]]; reflexivity].
Qed.

(** X10: conditional issues come from the business rule alone.  A conditional
    issue in a create failure is the issue of one of company_name,
    vat_number, tax_office; the registration type is then "business", that
    field is falsy, and no declared field aborted.  Update and review
    failures never hold a conditional issue. *)
Theorem conditional_issues_only_from_business_rule
        (v : value) (issues : list issue) (i : issue) :
  In i issues -> is_conditional i = true ->
  (safeParse VendorCreateSeller v = inr (Failure issues) ->
   exists o k,
     v = VObj o /\
     get o "registration_type" = VStr (lit "business") /\
     field_aborts VendorCreateSeller_shape o [] = false /\
     In k business_fields /\ i = business_issue k /\
     falsy (get o k) = true) /\
  safeParse VendorUpdateSeller v <> inr (Failure issues) /\
  safeParse VendorUpdateReview v <> inr (Failure issues).
Proof.
  intros Hi C. split; [|split].
  - intros H. destruct (is_object v) eqn:O.
    + destruct v as [| | | | | |o]; try discriminate.
      destruct (create_returned _ _ H) as (pairs & a & Hs).
      rewrite (create_result _ _ _ Hs) in H.
      destruct (pass_issues _ _ _ _ _ Hs) as [_ A].
      remember (a ++ unrecognized Strict VendorCreateSeller_shape o []
                  ++ (if aborted pairs then []
                      else business_refinement (VObj o))) as L eqn:E.
      assert (L = issues) as -> by (destruct L; congruence).
      subst issues. apply in_app_or in Hi as [Hi|Hi].
      { destruct refinement_free_issues as [_ R].
        rewrite (R VendorCreateSeller_shape eq_refl _ _ _ _ Hs i Hi) in C.
        discriminate. }
      apply in_app_or in Hi as [Hi|Hi].
      { rewrite (unrecognized_not_conditional _ _ _ _ _ Hi) in C.
        discriminate. }
      destruct (aborted pairs) eqn:Ab; [destruct Hi|].
      destruct (business_refinement_in _ _ Hi) as (R & k & Hk & -> & F).
      exists o, k. rewrite <- A. auto 10.
    + rewrite VendorCreateSeller_eq in H.
      rewrite (proj2 (safeParse_not_object _ _ _ O)) in H.
      inversion H; subst. destruct Hi as [<-|[]]. destruct v; discriminate.
  - intros H.
    destruct (parse VendorUpdateSeller v []) as [e|r a] eqn:P.
    { rewrite (safeParse_Throw _ _ _ P) in H. discriminate. }
    rewrite (safeParse_Ret _ _ _ _ P) in H.
    assert (a = issues) as -> by (destruct r; congruence).
    destruct refinement_free_issues as [R _].
    rewrite (R VendorUpdateSeller eq_refl _ _ _ _ P i Hi) in C. discriminate.
  - intros H.
    destruct (parse VendorUpdateReview v []) as [e|r a] eqn:P.
    { rewrite (safeParse_Throw _ _ _ P) in H. discriminate. }
    rewrite (safeParse_Ret _ _ _ _ P) in H.
    assert (a = issues) as -> by (destruct r; congruence).
    destruct refinement_free_issues as [R _].
    rewrite (R VendorUpdateReview eq_refl _ _ _ _ P i Hi) in C. discriminate.
Qed.

Lemma conditional_issues_only_from_business_rule_witness :
  exists o k,
    VObj (("vat_number", VStr []) :: business_shop) = VObj o /\
    get o "registration_type" = VStr (lit "business") /\
    field_aborts VendorCreateSeller_shape o [] = false /\
    In k business_fields /\ business_issue "vat_number" = business_issue k /\
    falsy (get o k) = true.
Proof.
  apply (conditional_issues_only_from_business_rule
           (VObj (("vat_number", VStr []) :: business_shop))
           (map business_issue business_fields)
           (business_issue "vat_number")).
  - simpl. tauto.
  - reflexivity.
  - vm_compute. reflexivity.
Defined.

(* ------------------------------------------------------------------ *)
(** *** Issue paths point into the declared shape *)

Lemma leaf_issue_path s :
  leaf s = true ->
  forall v p r a, parse s v p = Ret r a -> forall i, In i a -> path i = p.
Proof.
  induction s using schema_shape_ind with (P0 := fun _ => True);
    try exact I; intros L v p r a H i Hi.
  - destruct v; simpl in H; inversion H; subst; clear H;
      try (destruct Hi as [<-|[]]; reflexivity).
    apply in_map_iff in Hi as (d & <- & _). reflexivity.
  - destruct v; simpl in H;
      try (inversion H; subst; destruct Hi as [<-|[]]; reflexivity).
    destruct (existsb _ values); inversion H; subst;
      [destruct Hi | destruct Hi as [<-|[]]; reflexivity].
  - destruct v; simpl in H; try (exact (IHs L _ _ _ _ H i Hi)).
    inversion H; subst. destruct Hi.
  - destruct v; simpl in H; try (exact (IHs L _ _ _ _ H i Hi)).
    inversion H; subst. destruct Hi.
  - simpl in H, L. destruct (transform v); [discriminate|].
    exact (IHs L _ _ _ _ H i Hi).
  - discriminate.
  - discriminate.
Qed.

Lemma leaf_shape_paths sh o p pairs a i :
  shape_leaf sh = true -> parse_shape sh o p = Ret pairs a -> In i a ->
  exists k, In k (shape_keys sh) /\ path i = p ++ [k].
Proof.
  intros L Hs Hi.
  destruct (shape_issue_origin _ _ _ _ _ _ Hs Hi)
    as (k & s & r & a' & Hin & Hp & Hia).
  exists k. split; [eapply shape_in_keys; exact Hin|].
  refine (leaf_issue_path s _ _ _ _ _ Hp i Hia).
  clear - L Hin. induction sh as [|k' s' rest IH]; simpl in *; [contradiction|].
  apply andb_prop in L as [L1 L2].
  destruct Hin as [[-> ->]|Hin]; [exact L1 | exact (IH L2 Hin)].
Qed.

Lemma object_issue_paths fields policy v p r a i :
  shape_leaf fields = true ->
  parse (ZObject fields policy) v p = Ret r a -> In i a ->
  path i = p \/ exists k, In k (shape_keys fields) /\ path i = p ++ [k].
Proof.
  intros L H Hi.
  destruct v as [| | | | | |o];
    try (simpl in H; inversion H; subst; destruct Hi as [<-|[]]; left;
         reflexivity).
  apply parse_object_inv in H as (pairs & a' & Hs & _ & ->).
  apply in_app_or in Hi as [Hi|Hi].
  - right. exact (leaf_shape_paths _ _ _ _ _ _ L Hs Hi).
  - left. unfold unrecognized in Hi.
    destruct (extra_keys policy fields o);
      [destruct Hi | destruct Hi as [<-|[]]; reflexivity].
Qed.

Lemma create_field_kinds k s :
  shape_in k s VendorCreateSeller_shape ->
  leaf s = true \/ (k = "member" /\ s = z.object member_shape).
Proof.
  simpl. intros H.
  repeat (destruct H as [[-> ->]|H]; [first [left; reflexivity | right; auto]|]).
  destruct H.
Qed.

Lemma field_path_declared k :
  In k (shape_keys VendorCreateSeller_shape) -> In [k] create_paths.
Proof.
  intros H. unfold create_paths. right. apply in_or_app. left.
  apply (in_map (fun k => [k])), H.
Qed.

(** X11: every issue of a seller validator points into the declared shape.
    The path of an issue of a create failure is the root, a declared
    field, or a declared field of [member]; the path of an issue of an
    update failure is the root or a declared field.  An undeclared key is
    never the path of an issue: it is reported at the root, in the key
    list of the unrecognized-keys issue. *)
Theorem issue_paths_declared (v : value) (issues : list issue) (i : issue) :
  In i issues ->
  (safeParse VendorCreateSeller v = inr (Failure issues) ->
   In (path i) create_paths) /\
  (safeParse VendorUpdateSeller v = inr (Failure issues) ->
   path i = [] \/
   exists k, In k (shape_keys VendorUpdateSeller_shape) /\ path i = [k]).
Proof.
  intros Hi. split; intros H.
  - destruct (is_object v) eqn:O.
    + destruct v as [| | | | | |o]; try discriminate.
      destruct (create_returned _ _ H) as (pairs & a & Hs).
      rewrite (create_result _ _ _ Hs) in H.
      remember (a ++ unrecognized Strict VendorCreateSeller_shape o []
                  ++ (if aborted pairs then []
                      else business_refinement (VObj o))) as L eqn:E.
      assert (L = issues) as -> by (destruct L; congruence).
      subst issues. apply in_app_or in Hi as [Hi|Hi].
      { destruct (shape_issue_origin _ _ _ _ _ _ Hs Hi)
          as (k & s & r & a' & Hin & Hp & Hia).
        destruct (create_field_kinds k s Hin) as [L|[-> ->]].
        - rewrite (leaf_issue_path s L _ _ _ _ Hp i Hia).
          apply field_path_declared. eapply shape_in_keys; exact Hin.
        - destruct (object_issue_paths member_shape Strip _ _ _ _ _ eq_refl
                      Hp Hia)
            as [->|(k & Hk & ->)].
          + apply field_path_declared. simpl. tauto.
          + unfold create_paths. right. apply in_or_app. right.
            apply (in_map (fun k => ["member"; k])), Hk. }
      apply in_app_or in Hi as [Hi|Hi].
      { unfold unrecognized in Hi.
        destruct (extra_keys Strict VendorCreateSeller_shape o);
          [destruct Hi | destruct Hi as [<-|[]]; left; reflexivity]. }
      destruct (aborted pairs); [destruct Hi|].
      apply business_refinement_paths in Hi. unfold business_fields in Hi.
      simpl in Hi.
      destruct Hi as [<-|[<-|[<-|[]]]]; apply field_path_declared;
        simpl; tauto.
    + rewrite VendorCreateSeller_eq in H.
      rewrite (proj2 (safeParse_not_object _ _ _ O)) in H.
      inversion H; subst. destruct Hi as [<-|[]]. left. reflexivity.
  - destruct (parse VendorUpdateSeller v []) as [e|r a] eqn:P.
    { rewrite (safeParse_Throw _ _ _ P) in H. discriminate. }
    rewrite (safeParse_Ret _ _ _ _ P) in H.
    assert (a = issues) as -> by (destruct r; congruence).
    rewrite VendorUpdateSeller_eq in P.
    exact (object_issue_paths VendorUpdateSeller_shape Strict _ _ _ _ _
             eq_refl P Hi).
Qed.

Lemma issue_paths_declared_witness :
  In (path (Issue ["member"; "email"] invalid_string_email)) create_paths /\
  (path (Issue ["city"] (invalid_type (ExpType TString) TNull)) = [] \/
   exists k, In k (shape_keys VendorUpdateSeller_shape) /\
             path (Issue ["city"] (invalid_type (ExpType TString) TNull)) = [k]).
Proof.
  split.
  - apply (proj1 (issue_paths_declared
                    (VObj misaddressed_business_shop)
                    [Issue ["member"; "email"] invalid_string_email;
                     business_issue "company_name";
                     business_issue "vat_number";
                     business_issue "tax_office"]
                    (Issue ["member"; "email"] invalid_string_email)
                    (or_introl eq_refl))).
    vm_compute. reflexivity.
  - apply (proj2 (issue_paths_declared
                    (VObj [("city", VNull); ("zip", VNull)])
                    [Issue ["city"] (invalid_type (ExpType TString) TNull);
                     Issue [] (unrecognized_keys ["zip"])]
                    (Issue ["city"] (invalid_type (ExpType TString) TNull))
                    (or_introl eq_refl))).
    vm_compute. reflexivity.
Defined.

Lemma has_key_get_absent o k : has_key o k = false -> get o k = VUndefined.
Proof.
  induction o as [|[k' v] rest IH]; simpl; [reflexivity|].
  destruct (String.eqb k k'); [discriminate | exact IH].
Qed.

(* ================================================================== *)
(** ** Update and review: the normalized record *)

Lemma nodup_update_keys : NoDup (shape_keys VendorUpdateSeller_shape).
Proof.
  simpl. repeat (constructor; [simpl; intuition discriminate|]). constructor.
Qed.

Lemma update_success_inv o r :
  safeParse VendorUpdateSeller (VObj o) = inr (Success r) ->
  exists pairs,
    parse_shape VendorUpdateSeller_shape o [] = Ret pairs [] /\
    extra_keys Strict VendorUpdateSeller_shape o = [] /\
    r = VObj (normalize_shape VendorUpdateSeller_shape o).
Proof.
  intros H. destruct (update_returned _ _ H) as (pairs & a & Hs).
  rewrite (update_result _ _ _ Hs) in H.
  destruct (a ++ _) eqn:E; [|discriminate].
  apply app_eq_nil in E as [-> U]. exists pairs. split; [exact Hs|]. split.
  - unfold unrecognized in U.
    destruct (extra_keys Strict VendorUpdateSeller_shape o);
      [reflexivity | discriminate].
  - congruence.
Qed.

Lemma idempotent_update_name :
  idempotent (z.optional (z.preprocess trim_always (z.min 4 z.string))).
Proof.
  intros x v p H. destruct x as [| | | |s| |]; try (simpl in H; discriminate).
  - inversion H; subst. reflexivity.
  - rewrite update_name_string in H.
    destruct (List.length (trim s) <? 4)%nat eqn:L; inversion H; subst.
    rewrite update_name_string, trim_idem, L. reflexivity.
Qed.

Lemma idempotent_update : idempotent VendorUpdateSeller.
Proof.
  rewrite VendorUpdateSeller_eq. apply idempotent_object.
  - exact nodup_update_keys.
  - simpl. intuition discriminate.
  - unfold VendorUpdateSeller_shape. cbn [shape_all]. repeat split;
      try (apply idempotent_identity; intros []; reflexivity).
    exact idempotent_update_name.
Qed.

Lemma idempotent_review : idempotent VendorUpdateReview.
Proof.
  apply (idempotent_object _ Strip).
  - simpl. repeat (constructor; [simpl; intuition discriminate|]). constructor.
  - simpl. intuition discriminate.
  - cbn [shape_all]. split; [|exact I].
    apply idempotent_identity. intros []; reflexivity.
Qed.

(** X12: update and review validation are idempotent on their own output, for
    every input: a normalized record that was returned is accepted and
    returned unchanged. *)
Theorem update_and_review_idempotent (v r : value) :
  (safeParse VendorUpdateSeller v = inr (Success r) ->
   safeParse VendorUpdateSeller r = inr (Success r)) /\
  (safeParse VendorUpdateReview v = inr (Success r) ->
   safeParse VendorUpdateReview r = inr (Success r)).
Proof.
  split; intros H; apply safeParse_Success_inv in H.
  - apply idempotent_update in H. rewrite (safeParse_Ret _ _ _ _ H).
    reflexivity.
  - apply idempotent_review in H. rewrite (safeParse_Ret _ _ _ _ H).
    reflexivity.
Qed.

Lemma update_and_review_idempotent_witness :
  safeParse VendorUpdateSeller
    (VObj [("name", VStr (lit "Shop")); ("phone", VStr (lit " 2610 "))]) =
  inr (Success
         (VObj [("name", VStr (lit "Shop")); ("phone", VStr (lit " 2610 "))]))
  /\
  safeParse VendorUpdateReview (VObj [("seller_note", VStr (lit "Thanks"))]) =
  inr (Success (VObj [("seller_note", VStr (lit "Thanks"))])).
Proof.
  split.
  - apply (proj1 (update_and_review_idempotent
                    (VObj [("phone", VStr (lit " 2610 "));
                           ("name", VStr (lit " Shop "))]) _)).
    vm_compute. reflexivity.
  - apply (proj2 (update_and_review_idempotent
                    (VObj [("seller_note", VStr (lit "Thanks"));
                           ("stars", VNum 5)]) _)).
    vm_compute. reflexivity.
Defined.

Lemma update_success_others o k :
  extra_keys Strict VendorUpdateSeller_shape o = [] ->
  k <> "name" ->
  get (normalize_shape VendorUpdateSeller_shape o) k = get o k.
Proof.
  intros X Nn.
  destruct (in_dec string_dec k (shape_keys VendorUpdateSeller_shape))
    as [Hk|Hk].
  - simpl in Hk.
    repeat (destruct Hk as [Hk|Hk];
            [subst k;
             first [ congruence
                   | erewrite get_normalize_shape_get;
                     [|exact nodup_update_keys|reflexivity|discriminate];
                     destruct (get o _); reflexivity ]|]).
    destruct Hk.
  - rewrite (get_normalize_shape_out _ _ _ Hk).
    symmetry. apply (no_extra_keys_get _ _ _ X Hk).
Qed.

(** X13: what a successful update returns: [name], when given, is the trimmed
    input name and has at least four code units after trimming; an
    absent [name] stays absent; every other field is the input value
    unchanged. *)
Theorem update_success_trims_name_only (o final : obj) :
  safeParse VendorUpdateSeller (VObj o) = inr (Success (VObj final)) ->
  (forall k, k <> "name" -> get final k = get o k) /\
  (get o "name" = VUndefined /\ get final "name" = VUndefined \/
   exists s, get o "name" = VStr s /\ get final "name" = VStr (trim s) /\
             (4 <= List.length (trim s))%nat /\ is_trimmed (trim s) = true).
Proof.
  intros H. destruct (update_success_inv _ _ H) as (pairs & Hs & X & E).
  assert (final = normalize_shape VendorUpdateSeller_shape o) as ->
    by congruence.
  clear E. split.
  - intros k N. apply update_success_others; assumption.
  - pose proof (shape_fields_ok _ _ _ _ Hs) as Hok.
    assert (Hin : shape_in "name"
                    (z.optional (z.preprocess trim_always (z.min 4 z.string)))
                    VendorUpdateSeller_shape) by (simpl; tauto).
    pose proof (shape_all_in _ _ _ _ Hok Hin) as Hn. cbv beta in Hn.
    rewrite (get_normalize_shape _ _ _ _ nodup_update_keys Hin);
      [|discriminate].
    destruct (get o "name") as [| | | |s| |]; try (simpl in Hn; discriminate).
    + left. split; reflexivity.
    + right. exists s. rewrite update_name_string in Hn.
      destruct (List.length (trim s) <? 4)%nat eqn:L; [discriminate|].
      apply Nat.ltb_ge in L. repeat split; auto. apply trim_is_trimmed.
Qed.

Lemma update_success_trims_name_only_witness :
  get [("name", VStr (lit "Shop")); ("phone", VStr (lit " 2610 "))] "phone"
  = get [("phone", VStr (lit " 2610 ")); ("name", VStr (lit " Shop "))] "phone".
Proof.
  apply (proj1 (update_success_trims_name_only
                  [("phone", VStr (lit " 2610 ")); ("name", VStr (lit " Shop "))]
                  [("name", VStr (lit "Shop")); ("phone", VStr (lit " 2610 "))]
                  ltac:(vm_compute; reflexivity))).
  discriminate.
Defined.

(* ------------------------------------------------------------------ *)
(** *** The keys of the normalized record *)

Lemma keys_normalize_shape_present sh o :
  shape_all (fun k s => k <> "__proto__" /\
                        normalize s VUndefined = VUndefined) sh ->
  keys (normalize_shape sh o) = filter (has_key o) (shape_keys sh).
Proof.
  induction sh as [|k s rest IH]; intros H; [reflexivity|].
  destruct H as [[P U] Hrest]. specialize (IH Hrest).
  assert (K : kept k (normalize s (get o k)) (has_key o k) = has_key o k).
  { unfold kept. destruct (String.eqb_spec k "__proto__") as [|_];
      [contradiction|].
    destruct (has_key o k) eqn:K; [apply orb_true_r|].
    rewrite (has_key_get_absent _ _ K), U. reflexivity. }
  change (normalize_shape (SCons k s rest) o)
    with (if kept k (normalize s (get o k)) (has_key o k)
          then (k, normalize s (get o k)) :: normalize_shape rest o
          else normalize_shape rest o).
  change (shape_keys (SCons k s rest)) with (k :: shape_keys rest).
  cbn [filter]. rewrite K. destruct (has_key o k); [|exact IH].
  unfold keys in *. cbn [map fst]. rewrite IH. reflexivity.
Qed.

(** X14: the normalized record of a successful create or update holds exactly
    the declared keys the input has, in declaration order, whatever the
    order of the input; the nested member record likewise, where
    undeclared keys are dropped without an issue. *)
Theorem normalized_keys_in_declaration_order (o final : obj) :
  (safeParse VendorCreateSeller (VObj o) = inr (Success (VObj final)) ->
   keys final = filter (has_key o) (shape_keys VendorCreateSeller_shape) /\
   exists m m',
     get o "member" = VObj m /\ get final "member" = VObj m' /\
     keys m' = filter (has_key m) (shape_keys member_shape)) /\
  (safeParse VendorUpdateSeller (VObj o) = inr (Success (VObj final)) ->
   keys final = filter (has_key o) (shape_keys VendorUpdateSeller_shape)).
Proof.
  split; intros H.
  - destruct (create_success_inv _ _ H) as (o' & pairs & E & E' & Hs & X).
    assert (o' = o) as -> by congruence.
    assert (final = normalize_shape VendorCreateSeller_shape o) as ->
      by congruence.
    clear E E'. split.
    + apply keys_normalize_shape_present.
      unfold VendorCreateSeller_shape. cbn [shape_all].
      repeat split; discriminate.
    + destruct (create_success_member _ _ Hs) as (m & Hm & Hm' & _).
      exists m, (normalize_shape member_shape m). repeat split; auto.
      apply keys_normalize_shape_present.
      unfold member_shape. cbn [shape_all]. repeat split; discriminate.
  - destruct (update_success_inv _ _ H) as (pairs & Hs & X & E).
    assert (final = normalize_shape VendorUpdateSeller_shape o) as ->
      by congruence.
    apply keys_normalize_shape_present.
    unfold VendorUpdateSeller_shape. cbn [shape_all].
    repeat split; discriminate.
Qed.

Lemma normalized_keys_in_declaration_order_witness :
  keys (normalize_shape VendorCreateSeller_shape complete_business_shop) =
  ["registration_type"; "name"; "company_name"; "vat_number"; "tax_office";
   "member"].
Proof.
  rewrite (proj1 (proj1 (normalized_keys_in_declaration_order
                           complete_business_shop
                           (normalize_shape VendorCreateSeller_shape
                              complete_business_shop))
                          ltac:(vm_compute; reflexivity))).
  reflexivity.
Defined.

(* ================================================================== *)
(** ** More on the business rule and on how the schemas combine *)

Lemma field_aborts_in sh o p k s a :
  shape_in k s sh -> parse s (get o k) (p ++ [k]) = Ret INVALID a ->
  field_aborts sh o p = true.
Proof.
  induction sh as [|k' s' rest IH]; simpl; [contradiction|].
  intros [[-> ->]|Hin] Hp.
  - rewrite Hp. reflexivity.
  - rewrite (IH Hin Hp). apply orb_true_r.
Qed.

(** X15: a registration type that is a string other than "individual" and
    "business" (the comparison is exact, so "Business" is one) makes a
    create validation that returns fail with an invalid-enum issue at
    [registration_type] carrying the two allowed values and the value
    received; the business rule is not run, so the failure holds no
    conditional issue. *)
Theorem unknown_registration_type (o : obj) (t : jsstring) (res : result) :
  safeParse VendorCreateSeller (VObj o) = inr res ->
  get o "registration_type" = VStr t ->
  one_of registration_types (VStr t) = false ->
  exists issues,
    res = Failure issues /\
    In (Issue ["registration_type"] (invalid_enum_value registration_types t))
       issues /\
    forall i, In i issues -> is_conditional i = false.
Proof.
  intros H G E.
  assert (Hp : parse (z.enum registration_types) (get o "registration_type")
                 ([] ++ ["registration_type"]) =
               Ret INVALID [Issue ["registration_type"]
                              (invalid_enum_value registration_types t)]).
  { rewrite G. simpl in *. rewrite E. reflexivity. }
  assert (Hin : shape_in "registration_type" (z.enum registration_types)
                  VendorCreateSeller_shape) by (simpl; tauto).
  destruct (create_returned _ _ H) as (pairs & a & Hs).
  pose proof (shape_all_in _ _ _ _ (shape_field_issues _ _ _ _ _ Hs) Hin) as F.
  cbv beta in F. specialize (F _ _ Hp _ (or_introl eq_refl)).
  destruct (pass_issues _ _ _ _ _ Hs) as [_ A].
  assert (A' : field_aborts VendorCreateSeller_shape o [] = true)
    by exact (field_aborts_in _ _ _ _ _ _ Hin Hp).
  rewrite A' in A.
  rewrite (create_result _ _ _ Hs), A, app_nil_r in H.
  remember (a ++ unrecognized Strict VendorCreateSeller_shape o []) as L eqn:EL.
  assert (HL : In (Issue ["registration_type"]
                     (invalid_enum_value registration_types t)) L)
    by (subst L; apply in_or_app; left; exact F).
  destruct L as [|j L']; [destruct HL|].
  exists (j :: L'). split; [congruence|]. split; [exact HL|].
  intros i Hi. rewrite EL in Hi. apply in_app_or in Hi as [Hi|Hi].
  - destruct refinement_free_issues as [_ R].
    exact (R VendorCreateSeller_shape eq_refl _ _ _ _ Hs i Hi).
  - exact (unrecognized_not_conditional _ _ _ _ _ Hi).
Qed.

Lemma unknown_registration_type_witness :
  exists issues,
    Failure [Issue ["registration_type"]
               (invalid_enum_value registration_types (lit "Business"))]
    = Failure issues /\
    In (Issue ["registration_type"]
          (invalid_enum_value registration_types (lit "Business"))) issues /\
    forall i, In i issues -> is_conditional i = false.
Proof.
  apply (unknown_registration_type
           [("registration_type", VStr (lit "Business"));
            ("name", VStr (lit "Shop")); ("member", ann)]
           (lit "Business")); vm_compute; reflexivity.
Defined.

(** X16: the business rule asks only that its three fields be non-empty
    strings: they are not trimmed, so a value of blanks satisfies it.  A
    business registration whose declared fields satisfy their rules,
    without undeclared keys, and whose company_name, vat_number and
    tax_office are strings of at least one code unit is accepted. *)
Theorem business_fields_need_only_be_non_empty (o : obj) :
  satisfies_create_rules o = true ->
  extra_keys Strict VendorCreateSeller_shape o = [] ->
  get o "registration_type" = VStr (lit "business") ->
  (forall k, In k business_fields -> non_empty_string (get o k) = true) ->
  safeParse VendorCreateSeller (VObj o) =
  inr (Success (VObj (normalize_shape VendorCreateSeller_shape o))).
Proof.
  intros V X R N. rewrite (create_rules_result o V).
  unfold unrecognized. rewrite X, (business_refinement_business o R).
  assert (F : forall k, In k business_fields -> falsy (get o k) = false).
  { intros k Hk. specialize (N k Hk).
    destruct (get o k) as [| | | |[|c s]| |]; try discriminate. reflexivity. }
  rewrite (F "company_name" (or_introl eq_refl)),
    (F "vat_number" (or_intror (or_introl eq_refl))),
    (F "tax_office" (or_intror (or_intror (or_introl eq_refl)))).
  reflexivity.
Qed.

Lemma business_fields_need_only_be_non_empty_witness :
  safeParse VendorCreateSeller (VObj blank_business_shop) =
  inr (Success (VObj (normalize_shape VendorCreateSeller_shape
                        blank_business_shop))).
Proof.
  apply business_fields_need_only_be_non_empty.
  - vm_compute. reflexivity.
  - reflexivity.
  - reflexivity.
  - unfold business_fields. simpl.
    intros k [<-|[<-|[<-|[]]]]; reflexivity.
Defined.

Lemma has_key_keys o k : has_key o k = true <-> In k (keys o).
Proof.
  unfold keys. induction o as [|[k' v] rest IH]; simpl.
  - split; [discriminate | contradiction].
  - destruct (String.eqb_spec k k') as [->|N].
    + split; auto.
    + rewrite IH. split; [auto|]. intros [E|H]; [congruence | exact H].
Qed.

Lemma get_defined_has_key o k : get o k <> VUndefined -> has_key o k = true.
Proof.
  intros H. destruct (has_key o k) eqn:K; [reflexivity|].
  destruct H. apply has_key_get_absent, K.
Qed.

(** X17: the record a successful create returns is never a valid update body:
    it always has the key [member], which the strict update schema does
    not declare.  Validating it with the update schema returns, without
    raising, a failure whose unrecognized-keys issue lists [member]. *)
Theorem create_output_rejected_by_update (v r : value) :
  safeParse VendorCreateSeller v = inr (Success r) ->
  exists issues ks,
    safeParse VendorUpdateSeller r = inr (Failure issues) /\
    In (Issue [] (unrecognized_keys ks)) issues /\
    In "member" ks.
Proof.
  intros H.
  destruct (create_success_inv _ _ H) as (o & pairs & -> & -> & Hs & X).
  destruct (create_success_name _ _ Hs) as (s & _ & Hn).
  destruct (create_success_member _ _ Hs) as (m & _ & Hm & _).
  set (final := normalize_shape VendorCreateSeller_shape o) in *.
  assert (Hk : In "member" (extra_keys Strict VendorUpdateSeller_shape final)).
  { unfold extra_keys. apply filter_In. split; [|reflexivity].
    apply has_key_keys, get_defined_has_key. rewrite Hm. discriminate. }
  destruct (update_returns final) as [res R].
  { rewrite Hn. reflexivity. }
  destruct (update_returned _ _ R) as (pairs' & a & Hs').
  rewrite (update_result _ _ _ Hs').
  assert (U : unrecognized Strict VendorUpdateSeller_shape final [] =
              [Issue [] (unrecognized_keys
                           (extra_keys Strict VendorUpdateSeller_shape final))]).
  { apply unrecognized_present. intros E. rewrite E in Hk. destruct Hk. }
  rewrite U.
  exists (a ++ [Issue [] (unrecognized_keys
                            (extra_keys Strict VendorUpdateSeller_shape final))]),
    (extra_keys Strict VendorUpdateSeller_shape final).
  split; [|split; [|exact Hk]].
  - destruct (a ++ _) eqn:E; [|reflexivity].
    apply app_eq_nil in E as [_ E]. discriminate.
  - apply in_or_app. right. left. reflexivity.
Qed.

Lemma create_output_rejected_by_update_witness :
  exists issues ks,
    safeParse VendorUpdateSeller
      (normalize VendorCreateSeller (VObj individual_shop))
    = inr (Failure issues) /\
    In (Issue [] (unrecognized_keys ks)) issues /\
    In "member" ks.
Proof.
  apply (create_output_rejected_by_update (VObj individual_shop)).
  vm_compute. reflexivity.
Defined.

(* ================================================================== *)
(** ** What the answer depends on *)

Lemma parse_shape_ext sh o o' p :
  (forall k, get o k = get o' k) -> (forall k, has_key o k = has_key o' k) ->
  parse_shape sh o p = parse_shape sh o' p.
Proof.
  intros G K. induction sh as [|k s rest IH]; [reflexivity|].
  rewrite !parse_shape_cons, G, K, IH. reflexivity.
Qed.

Lemma parse_object_ext fields policy o o' p :
  (forall k, get o k = get o' k) -> (forall k, has_key o k = has_key o' k) ->
  extra_keys policy fields o = extra_keys policy fields o' ->
  parse (ZObject fields policy) (VObj o) p =
  parse (ZObject fields policy) (VObj o') p.
Proof.
  intros G K X. rewrite !parse_object, (parse_shape_ext _ _ _ _ G K).
  unfold unrecognized. rewrite X. reflexivity.
Qed.

(** X18: the answer of a validator does not depend on the order in which the
    record lists its keys.  Two records that bind the same keys to the
    same values get the same answer from the review validator, and from
    each seller validator as soon as they list their undeclared keys in
    the same order (the order shows in the unrecognized-keys issue). *)
Theorem key_order_irrelevant (o o' : obj) :
  (forall k, get o k = get o' k) ->
  (forall k, has_key o k = has_key o' k) ->
  (extra_keys Strict VendorCreateSeller_shape o =
   extra_keys Strict VendorCreateSeller_shape o' ->
   safeParse VendorCreateSeller (VObj o) =
   safeParse VendorCreateSeller (VObj o')) /\
  (extra_keys Strict VendorUpdateSeller_shape o =
   extra_keys Strict VendorUpdateSeller_shape o' ->
   safeParse VendorUpdateSeller (VObj o) =
   safeParse VendorUpdateSeller (VObj o')) /\
  safeParse VendorUpdateReview (VObj o) =
  safeParse VendorUpdateReview (VObj o').
Proof.
  intros G K. repeat split.
  - intros X. unfold safeParse.
    rewrite VendorCreateSeller_eq, !parse_superRefine.
    rewrite (parse_object_ext _ _ _ _ _ G K X). reflexivity.
  - intros X. unfold safeParse. rewrite VendorUpdateSeller_eq.
    rewrite (parse_object_ext _ _ _ _ _ G K X). reflexivity.
  - unfold safeParse, VendorUpdateReview, z.object.
    rewrite (parse_object_ext _ Strip _ _ _ G K eq_refl). reflexivity.
Qed.

Lemma key_order_irrelevant_witness :
  safeParse VendorUpdateSeller
    (VObj [("name", VStr (lit " Shop ")); ("city", VNull)]) =
  safeParse VendorUpdateSeller
    (VObj [("city", VNull); ("name", VStr (lit " Shop "))]).
Proof.
  apply (key_order_irrelevant
           [("name", VStr (lit " Shop ")); ("city", VNull)]
           [("city", VNull); ("name", VStr (lit " Shop "))]).
  - intros k. simpl.
    destruct (String.eqb_spec k "name") as [->|]; [reflexivity|].
    destruct (String.eqb_spec k "city"); reflexivity.
  - intros k. simpl.
    destruct (String.eqb_spec k "name") as [->|]; [reflexivity|].
    destruct (String.eqb_spec k "city"); reflexivity.
  - reflexivity.
Defined.

(* ================================================================== *)
(** ** The zod 3.22 line *)

Lemma parse_shape_cons_match k s rest o p :
  parse_shape (SCons k s rest) o p =
  match parse s (get o k) (p ++ [k]) with
  | Throw e => Throw e
  | Ret r added =>
      match parse_shape rest o p with
      | Throw e => Throw e
      | Ret rs more => Ret (Pair k r (has_key o k) :: rs) (added ++ more)
      end
  end.
Proof.
  rewrite parse_shape_cons. unfold bind.
  destruct (parse s (get o k) (p ++ [k])) as [e|r a]; [reflexivity|].
  destruct (parse_shape rest o p) as [e|rs b]; [reflexivity|].
  rewrite app_nil_r. reflexivity.
Qed.

(** Where no [preprocess] is involved the two lines agree. *)
Lemma callback_free_3_22 :
  (forall s, callback_free s = true ->
             forall v p held, parse_3_22 s v p held = parse s v p) /\
  (forall sh, shape_callback_free sh = true ->
              forall o p held,
                parse_shape_3_22 sh o p held = parse_shape sh o p).
Proof.
  apply schema_mutind.
  - reflexivity.
  - reflexivity.
  - intros inner IH F v p held. destruct v; simpl; auto; apply IH, F.
  - intros inner IH F v p held. destruct v; simpl; auto; apply IH, F.
  - discriminate.
  - intros fields IH policy F v p held.
    destruct v; try reflexivity.
    rewrite parse_object.
    change (parse_3_22 (ZObject fields policy) (VObj fields0) p held)
      with (pairs <- parse_shape_3_22 fields fields0 p held ;;
            Ret (object_return pairs (unrecognized policy fields fields0 p))
                (unrecognized policy fields fields0 p)).
    rewrite (IH F). reflexivity.
  - intros inner IH refinement F v p held. rewrite parse_superRefine.
    change (parse_3_22 (ZSuperRefine inner refinement) v p held)
      with (r <- parse_3_22 inner v p held ;; refine_return refinement p r).
    rewrite (IH F). reflexivity.
  - reflexivity.
  - intros k s IHs rest IHr F o p held. simpl in F.
    apply andb_prop in F as [Fs Fr].
    rewrite parse_shape_cons_match.
    change (parse_shape_3_22 (SCons k s rest) o p held)
      with (match parse_3_22 s (get o k) (p ++ [k]) held with
            | Throw e => Throw e
            | Ret r added =>
                match parse_shape_3_22 rest o p (holds_issue held added) with
                | Throw e => Throw e
                | Ret rs more =>
                    Ret (Pair k r (has_key o k) :: rs) (added ++ more)
                end
            end).
    rewrite (IHs Fs). destruct (parse s (get o k) (p ++ [k])) as [e|r a];
      [reflexivity|].
    rewrite (IHr Fr). reflexivity.
Qed.

Lemma parse_shape_3_22_cons k s rest o p held :
  parse_shape_3_22 (SCons k s rest) o p held =
  match parse_3_22 s (get o k) (p ++ [k]) held with
  | Throw e => Throw e
  | Ret r added =>
      match parse_shape_3_22 rest o p (holds_issue held added) with
      | Throw e => Throw e
      | Ret rs more => Ret (Pair k r (has_key o k) :: rs) (added ++ more)
      end
  end.
Proof. reflexivity. Qed.

(** A shape whose first rule has no callback, whose second rule is a
    [preprocess] (possibly optional) over a rule without callback, and
    whose other rules have no callback: the shape of both seller
    schemas.  While the first field raises no issue the two lines
    agree. *)
Lemma seller_shape_3_22_agree k1 s1 k2 s2 rest o :
  callback_free s1 = true ->
  (forall v p, parse_3_22 s2 v p false = parse s2 v p) ->
  shape_callback_free rest = true ->
  (forall r a, parse s1 (get o k1) ([] ++ [k1]) = Ret r a -> a = []) ->
  parse_shape_3_22 (SCons k1 s1 (SCons k2 s2 rest)) o [] false =
  parse_shape (SCons k1 s1 (SCons k2 s2 rest)) o [].
Proof.
  intros F1 F2 F3 Hclean.
  rewrite parse_shape_3_22_cons, parse_shape_cons_match.
  rewrite (proj1 callback_free_3_22 s1 F1).
  destruct (parse s1 (get o k1) ([] ++ [k1])) as [e|r a] eqn:P; [reflexivity|].
  rewrite (Hclean _ _ eq_refl). simpl holds_issue.
  rewrite parse_shape_3_22_cons, parse_shape_cons_match, F2.
  destruct (parse s2 (get o k2) ([] ++ [k2])) as [e|r2 a2]; [reflexivity|].
  rewrite (proj2 callback_free_3_22 rest F3). reflexivity.
Qed.

Lemma create_name_3_22 v p :
  parse_3_22 (z.preprocess trim_if_present (z.min 1 z.string)) v p false =
  parse (z.preprocess trim_if_present (z.min 1 z.string)) v p.
Proof. reflexivity. Qed.

Lemma update_name_3_22 v p :
  parse_3_22 (z.optional (z.preprocess trim_always (z.min 4 z.string)))
    v p false =
  parse (z.optional (z.preprocess trim_always (z.min 4 z.string))) v p.
Proof. destruct v; reflexivity. Qed.

Lemma one_of_clean options v p r a :
  one_of options v = true -> parse (z.enum options) v p = Ret r a -> a = [].
Proof.
  intros H P. rewrite (one_of_ok _ _ _ H) in P. congruence.
Qed.

Lemma optional_one_of_clean options v p r a :
  optional_one_of options v = true ->
  parse (z.optional (z.enum options)) v p = Ret r a -> a = [].
Proof.
  intros H P. apply (optional_one_of_iff options v p) in H as [w Hw].
  congruence.
Qed.

Lemma create_shape_3_22_agree o :
  one_of registration_types (get o "registration_type") = true ->
  parse_shape_3_22 VendorCreateSeller_shape o [] false =
  parse_shape VendorCreateSeller_shape o [].
Proof.
  intros H.
  exact (seller_shape_3_22_agree
           "registration_type" (z.enum registration_types)
           "name" (z.preprocess trim_if_present (z.min 1 z.string))
           (shape_skip 2 VendorCreateSeller_shape) o
           eq_refl create_name_3_22 eq_refl
           (fun r a => one_of_clean _ _ _ r a H)).
Qed.

Lemma update_shape_3_22_agree o :
  optional_one_of registration_types (get o "registration_type") = true ->
  parse_shape_3_22 VendorUpdateSeller_shape o [] false =
  parse_shape VendorUpdateSeller_shape o [].
Proof.
  intros H.
  exact (seller_shape_3_22_agree
           "registration_type" (z.optional (z.enum registration_types))
           "name"
           (z.optional (z.preprocess trim_always (z.min 4 z.string)))
           (shape_skip 2 VendorUpdateSeller_shape) o
           eq_refl update_name_3_22 eq_refl
           (fun r a => optional_one_of_clean _ _ _ r a H)).
Qed.

(** With a registration type that passes, a seller validator answers the
    same on both lines. *)
Lemma create_3_22_agrees o :
  one_of registration_types (get o "registration_type") = true ->
  safeParse_3_22 VendorCreateSeller (VObj o) =
  safeParse VendorCreateSeller (VObj o).
Proof.
  intros H. unfold safeParse_3_22, safeParse.
  rewrite VendorCreateSeller_eq, parse_superRefine, parse_object.
  change (parse_3_22 (ZSuperRefine (ZObject VendorCreateSeller_shape Strict)
                        business_refinement) (VObj o) [] false)
    with (r <- (pairs <- parse_shape_3_22 VendorCreateSeller_shape o [] false ;;
                Ret (object_return pairs
                       (unrecognized Strict VendorCreateSeller_shape o []))
                    (unrecognized Strict VendorCreateSeller_shape o [])) ;;
          refine_return business_refinement [] r).
  rewrite (create_shape_3_22_agree o H). reflexivity.
Qed.

Lemma update_3_22_agrees o :
  optional_one_of registration_types (get o "registration_type") = true ->
  safeParse_3_22 VendorUpdateSeller (VObj o) =
  safeParse VendorUpdateSeller (VObj o).
Proof.
  intros H. unfold safeParse_3_22, safeParse.
  rewrite VendorUpdateSeller_eq, parse_object.
  change (parse_3_22 (ZObject VendorUpdateSeller_shape Strict) (VObj o) []
            false)
    with (pairs <- parse_shape_3_22 VendorUpdateSeller_shape o [] false ;;
          Ret (object_return pairs
                 (unrecognized Strict VendorUpdateSeller_shape o []))
              (unrecognized Strict VendorUpdateSeller_shape o [])).
  rewrite (update_shape_3_22_agree o H). reflexivity.
Qed.

(* ------------------------------------------------------------------ *)
(** *** Results on the 3.22 line *)


Lemma shape_field_issues_3_22 sh o p held pairs a :
  parse_shape_3_22 sh o p held = Ret pairs a ->
  shape_all (fun k s => callback_free s = true ->
                        forall r a', parse s (get o k) (p ++ [k]) = Ret r a' ->
                                     incl a' a) sh.
Proof.
  revert held pairs a. induction sh as [|k s rest IH]; intros held pairs a H.
  - exact I.
  - rewrite parse_shape_3_22_cons in H.
    destruct (parse_3_22 s (get o k) (p ++ [k]) held) as [e|r a1] eqn:P;
      [discriminate|].
    destruct (parse_shape_3_22 rest o p (holds_issue held a1)) as [e|rs b]
      eqn:Hrs; [discriminate|].
    inversion H; subst. split.
    + intros F r' a' P'. rewrite (proj1 callback_free_3_22 s F) in P.
      rewrite P in P'. inversion P'; subst. apply incl_appl, incl_refl.
    + specialize (IH _ _ _ Hrs). revert IH. clear.
      induction rest as [|k' s' rest' IH']; simpl; [trivial|].
      intros [H1 H2]. split; [|exact (IH' H2)].
      intros F r a H. apply incl_appr. exact (H1 F r a H).
Qed.

Lemma enum_outcome options v p :
  one_of options v = false ->
  exists i, parse (z.enum options) v p = Ret INVALID [i].
Proof.
  destruct v; simpl; eauto. intros ->. eauto.
Qed.


(** When the first field aborts, the record aborts with its issues. *)
Lemma first_field_aborts k s rest o held i pairs a :
  parse_3_22 s (get o k) ([] ++ [k]) held = Ret INVALID [i] ->
  parse_shape_3_22 (SCons k s rest) o [] held = Ret pairs a ->
  aborted pairs = true /\ exists more, a = i :: more.
Proof.
  intros P H. rewrite parse_shape_3_22_cons, P in H.
  destruct (parse_shape_3_22 rest o [] (holds_issue held [i])) as [e|rs b];
    [discriminate|].
  inversion H; subst. split; [reflexivity|]. exists b. reflexivity.
Qed.

Lemma parse_3_22_create o :
  parse_3_22 VendorCreateSeller (VObj o) [] false =
  (r <- (pairs <- parse_shape_3_22 VendorCreateSeller_shape o [] false ;;
         Ret (object_return pairs
                (unrecognized Strict VendorCreateSeller_shape o []))
             (unrecognized Strict VendorCreateSeller_shape o [])) ;;
   refine_return business_refinement [] r).
Proof. reflexivity. Qed.


Lemma aborted_object_return pairs unrec :
  aborted pairs = true -> object_return pairs unrec = INVALID.
Proof.
  intros A. apply mergeObjectSync_aborted in A. unfold object_return.
  rewrite A. reflexivity.
Qed.

Lemma create_result_3_22 o pairs a :
  parse_shape_3_22 VendorCreateSeller_shape o [] false = Ret pairs a ->
  safeParse_3_22 VendorCreateSeller (VObj o) =
  inr (match a ++ unrecognized Strict VendorCreateSeller_shape o []
               ++ (if aborted pairs then [] else business_refinement (VObj o))
       with
       | [] => Success (VObj (normalize_shape VendorCreateSeller_shape o))
       | issues => Failure issues
       end).
Proof.
  intros Hs.
  destruct (one_of registration_types (get o "registration_type")) eqn:R.
  - rewrite (create_3_22_agrees o R).
    rewrite (create_shape_3_22_agree o R) in Hs. exact (create_result _ _ _ Hs).
  - destruct (enum_outcome _ _ ([] ++ ["registration_type"]) R) as [i P].
    destruct (first_field_aborts "registration_type"
                (z.enum registration_types)
                (shape_skip 1 VendorCreateSeller_shape) o false i pairs a P Hs)
      as (A & more & ->).
    unfold safeParse_3_22. rewrite parse_3_22_create, Hs, A.
    unfold bind. rewrite (aborted_object_return _ _ A).
    cbn [refine_return app]. rewrite !app_nil_r. reflexivity.
Qed.


Lemma create_returned_3_22 o res :
  safeParse_3_22 VendorCreateSeller (VObj o) = inr res ->
  exists pairs a,
    parse_shape_3_22 VendorCreateSeller_shape o [] false = Ret pairs a.
Proof.
  unfold safeParse_3_22. rewrite parse_3_22_create.
  destruct (parse_shape_3_22 VendorCreateSeller_shape o [] false) as [e|pairs a];
    [discriminate | eauto].
Qed.


Lemma create_field_issue_3_22 o k s r a i res :
  shape_in k s VendorCreateSeller_shape -> callback_free s = true ->
  parse s (get o k) ([] ++ [k]) = Ret r a -> In i a ->
  safeParse_3_22 VendorCreateSeller (VObj o) = inr res ->
  exists issues, res = Failure issues /\ In i issues.
Proof.
  intros Hin F Hp Hi H.
  destruct (create_returned_3_22 _ _ H) as (pairs & a0 & Hs).
  pose proof (shape_all_in _ _ _ _ (shape_field_issues_3_22 _ _ _ _ _ _ Hs) Hin)
    as I0.
  cbv beta in I0. specialize (I0 F _ _ Hp _ Hi).
  rewrite (create_result_3_22 _ _ _ Hs) in H.
  remember (a0 ++ unrecognized Strict VendorCreateSeller_shape o []
               ++ (if aborted pairs then []
                   else business_refinement (VObj o))) as L eqn:E.
  assert (HL : In i L) by (subst L; apply in_or_app; left; exact I0).
  destruct L as [|j L']; [destruct HL|].
  exists (j :: L'). split; [congruence | exact HL].
Qed.

(* ================================================================== *)
(** ** Statements made for both zod lines *)

(** C6, as the code has it.  [name] is trimmed before its length is
    checked.  A create input whose [name] is a non-empty string of
    whitespace only fails with a length issue (minimum 1) at path [name],
    and an update input whose [name] trims to fewer than four code units
    fails with a length issue (minimum 4) at path [name]: on zod 3.23 and
    later whatever the other fields hold, on zod 3.22 when
    registration_type raises no issue (create: one of the two allowed
    values; update: absent or one of them). *)
Theorem name_length_checked_after_trim (line : zod_line) :
  (forall o s,
      get o "name" = VStr s -> s <> [] -> forallb is_ws s = true ->
      line = Zod_3_23 \/
      one_of registration_types (get o "registration_type") = true ->
      List.length (trim s) = 0%nat /\
      exists issues,
        safeParse_on line VendorCreateSeller (VObj o) = inr (Failure issues) /\
        In (Issue ["name"] (too_small 1)) issues /\
        kind_of (too_small 1) = LengthOutOfBounds) /\
  (forall o s,
      get o "name" = VStr s -> (List.length (trim s) < 4)%nat ->
      line = Zod_3_23 \/
      optional_one_of registration_types (get o "registration_type") = true ->
      exists issues,
        safeParse_on line VendorUpdateSeller (VObj o) = inr (Failure issues) /\
        In (Issue ["name"] (too_small 4)) issues /\
        kind_of (too_small 4) = LengthOutOfBounds).
Proof.
  split.
  - intros o s Hn _ Hw R. rewrite (trim_ws s Hw). split; [reflexivity|].
    destruct (create_name_issue o s Hn) as (issues & H1 & H2).
    { rewrite (trim_ws s Hw). simpl. lia. }
    exists issues. repeat split; auto.
    destruct line; [|exact H1].
    destruct R as [R|R]; [discriminate|].
    unfold safeParse_on. rewrite (create_3_22_agrees o R). exact H1.
  - intros o s Hn Hl R.
    destruct (update_name_issue o s Hn Hl) as (issues & H1 & H2).
    exists issues. repeat split; auto.
    destruct line; [|exact H1].
    destruct R as [R|R]; [discriminate|].
    unfold safeParse_on. rewrite (update_3_22_agrees o R). exact H1.
Qed.

Lemma name_length_checked_after_trim_witness :
  (exists issues,
      safeParse_on Zod_3_22 VendorCreateSeller
        (VObj [("registration_type", VStr (lit "individual"));
               ("name", VStr (lit "   "));
               ("member", ann)])
      = inr (Failure issues) /\
      In (Issue ["name"] (too_small 1)) issues) /\
  (exists issues,
      safeParse_on Zod_3_23 VendorCreateSeller (VObj misregistered_blank_shop)
      = inr (Failure issues) /\
      In (Issue ["name"] (too_small 1)) issues) /\
  (exists issues,
      safeParse_on Zod_3_22 VendorUpdateSeller
        (VObj [("name", VStr (lit "  abc "))])
      = inr (Failure issues) /\
      In (Issue ["name"] (too_small 4)) issues).
Proof.
  split; [|split].
  - destruct (proj1 (name_length_checked_after_trim Zod_3_22)
                [("registration_type", VStr (lit "individual"));
                 ("name", VStr (lit "   "));
                 ("member", ann)]
                (lit "   ")) as (_ & issues & H1 & H2 & _).
    + reflexivity.
    + discriminate.
    + reflexivity.
    + right. reflexivity.
    + exists issues. auto.
  - destruct (proj1 (name_length_checked_after_trim Zod_3_23)
                misregistered_blank_shop (lit "   "))
      as (_ & issues & H1 & H2 & _).
    + reflexivity.
    + discriminate.
    + reflexivity.
    + left. reflexivity.
    + exists issues. auto.
  - destruct (proj2 (name_length_checked_after_trim Zod_3_22)
                [("name", VStr (lit "  abc "))] (lit "  abc "))
      as (issues & H1 & H2 & _).
    + reflexivity.
    + vm_compute. lia.
    + right. reflexivity.
    + exists issues. auto.
Defined.

(** C6, counterexample on the zod 3.22 line.  The create record has a
    [name] of three blanks and a registration type outside the
    enumeration; the update record has a [name] that trims to two code
    units and a numeric registration type.  The registration type raises
    an issue first, the [preprocess] of [name] then returns without
    running the length check, and the failure has no issue at [name]. *)
Lemma held_issue_skips_name_length :
  get misregistered_blank_shop "name" = VStr (lit "   ") /\
  forallb is_ws (lit "   ") = true /\
  safeParse_3_22 VendorCreateSeller (VObj misregistered_blank_shop)
  = inr (Failure [Issue ["registration_type"]
                    (invalid_enum_value registration_types (lit "company"))]) /\
  ~ (exists issues,
        safeParse_3_22 VendorCreateSeller (VObj misregistered_blank_shop)
        = inr (Failure issues) /\
        In (Issue ["name"] (too_small 1)) issues) /\
  safeParse_3_22 VendorUpdateSeller (VObj misregistered_short_update)
  = inr (Failure [Issue ["registration_type"]
                    (invalid_type (ExpOneOf registration_types) TNumber)]) /\
  ~ (exists issues,
        safeParse_3_22 VendorUpdateSeller (VObj misregistered_short_update)
        = inr (Failure issues) /\
        In (Issue ["name"] (too_small 4)) issues).
Proof.
  repeat split.
  - intros (issues & H & Hin). vm_compute in H. inversion H; subst.
    destruct Hin as [E|[]]. discriminate.
  - intros (issues & H & Hin). vm_compute in H. inversion H; subst.
    destruct Hin as [E|[]]. discriminate.
Qed.



(** X8: the three required fields of the create schema, on either zod
    line.  A record without [registration_type] or without [member]
    fails, whenever the validator returns, with an invalid-type issue at
    that field saying [undefined] was received.  A record without [name],
    or with a [null] name (the callback turns [null] into [undefined]),
    is answered, never raised on, with a failure holding the like issue
    at [name]: on zod 3.23 and later always, on zod 3.22 when
    registration_type is one of the two allowed values. *)
Theorem create_required_fields (line : zod_line) (o : obj) :
  (is_undefined (get o "name") || is_null (get o "name") = true ->
   line = Zod_3_23 \/
   one_of registration_types (get o "registration_type") = true ->
   exists issues,
     safeParse_on line VendorCreateSeller (VObj o) = inr (Failure issues) /\
     In (Issue ["name"] (invalid_type (ExpType TString) TUndefined)) issues) /\
  (forall res,
      safeParse_on line VendorCreateSeller (VObj o) = inr res ->
      (get o "registration_type" = VUndefined ->
       exists issues,
         res = Failure issues /\
         In (Issue ["registration_type"]
               (invalid_type (ExpOneOf registration_types) TUndefined))
            issues) /\
      (get o "member" = VUndefined ->
       exists issues,
         res = Failure issues /\
         In (Issue ["member"] (invalid_type (ExpType TObject) TUndefined))
            issues)) /\
  kind_of (invalid_type (ExpType TString) TUndefined) = MissingRequiredField.
Proof.
  destruct (required_fields_3_23 o) as (N & F & K).
  split; [|split; [|exact K]].
  - intros Hn R. destruct (N Hn) as (issues & H1 & H2).
    exists issues. split; [|exact H2].
    destruct line; [|exact H1].
    destruct R as [R|R]; [discriminate|].
    unfold safeParse_on. rewrite (create_3_22_agrees o R). exact H1.
  - destruct line; [|exact F]. unfold safeParse_on.
    intros res H. split; intros G.
    + apply (create_field_issue_3_22 o "registration_type"
               (z.enum registration_types) INVALID
               [Issue ["registration_type"]
                  (invalid_type (ExpOneOf registration_types) TUndefined)]);
        [ simpl; tauto | reflexivity | rewrite G; reflexivity
        | left; reflexivity | exact H ].
    + apply (create_field_issue_3_22 o "member" (z.object member_shape) INVALID
               [Issue ["member"] (invalid_type (ExpType TObject) TUndefined)]);
        [ simpl; tauto | reflexivity | rewrite G; reflexivity
        | left; reflexivity | exact H ].
Qed.

Lemma create_required_fields_witness :
  (exists issues,
      safeParse_on Zod_3_22 VendorCreateSeller
        (VObj [("registration_type", VStr (lit "individual"));
               ("name", VNull); ("member", ann)])
      = inr (Failure issues) /\
      In (Issue ["name"] (invalid_type (ExpType TString) TUndefined)) issues) /\
  (exists issues,
      Failure [Issue ["registration_type"]
                 (invalid_type (ExpOneOf registration_types) TUndefined);
               Issue ["member"] (invalid_type (ExpType TObject) TUndefined)]
      = Failure issues /\
      In (Issue ["member"] (invalid_type (ExpType TObject) TUndefined)) issues).
Proof.
  split.
  - apply (proj1 (create_required_fields Zod_3_22
                    [("registration_type", VStr (lit "individual"));
                     ("name", VNull); ("member", ann)])).
    + reflexivity.
    + right. reflexivity.
  - destruct (create_required_fields Zod_3_22 [("name", VStr (lit "Shop"))])
      as (_ & H & _).
    apply (H (Failure [Issue ["registration_type"]
                         (invalid_type (ExpOneOf registration_types) TUndefined);
                       Issue ["member"]
                         (invalid_type (ExpType TObject) TUndefined)]));
      vm_compute; reflexivity.
Defined.
